(** * azure-devops-npm-auth: a shallow embedding of [src/index.ts]

    The program is a command-line tool that writes an Azure DevOps session
    token into a global [.npmrc].  This development embeds

    - the JavaScript string primitives the program calls ([trim],
      [startsWith], [split], [join], [btoa], a regular-expression test),
    - the two [URLPattern] constants and the matching they perform,
    - the line rewriting loop of [main] (lines 133-185 of the source),
    - [main] itself as a program over a console, a file system and a prompt,

    and proves the properties of the specification about them.

    Strings are sequences of UTF-16 code units, as in JavaScript: a code unit
    is an [N] and a string is a [list N]. *)

From Stdlib Require Import NArith String Ascii Bool DecimalString Lia.
From stdpp Require Import base tactics option list numbers.

Local Open Scope N_scope.
Local Open Scope list_scope.

(** ** JavaScript strings *)

Abbreviation jsstring := (list N).

(** A literal of the source, as its code units. *)
Fixpoint lit (s : string) : jsstring :=
  match s with
  | EmptyString => []
  | String a s' => N_of_ascii a :: lit s'
  end.
Arguments lit : simpl never.

Module Char.
Definition LF : N := 10.
Definition SLASH : N := 47.
Definition COLON : N := 58.
Definition EQUALS : N := 61.

(** ECMAScript [WhiteSpace] and [LineTerminator] code points, the ones
    [String.prototype.trim] removes.  All of them are in the basic plane. *)
Definition isWhiteSpace (c : N) : bool :=
  ((9 <=? c) && (c <=? 13)) || (c =? 32) || (c =? 160) || (c =? 5760)
  || ((8192 <=? c) && (c <=? 8202)) || (c =? 8232) || (c =? 8233)
  || (c =? 8239) || (c =? 8287) || (c =? 12288) || (c =? 65279).

(** ECMAScript [LineTerminator]: what [.] of a regular expression refuses. *)
Definition isLineTerminator (c : N) : bool :=
  (c =? 10) || (c =? 13) || (c =? 8232) || (c =? 8233).

Definition isAsciiDigit (c : N) : bool := (48 <=? c) && (c <=? 57).
Definition isAsciiUpper (c : N) : bool := (65 <=? c) && (c <=? 90).
Definition isAsciiLower (c : N) : bool := (97 <=? c) && (c <=? 122).
Definition isAsciiAlpha (c : N) : bool := isAsciiUpper c || isAsciiLower c.
Definition isAsciiAlphanumeric (c : N) : bool := isAsciiDigit c || isAsciiAlpha c.

Definition asciiLower (c : N) : N := if isAsciiUpper c then c + 32 else c.
Definition asciiUpper (c : N) : N := if isAsciiLower c then c - 32 else c.
End Char.

(** [String.prototype.trim]: the stored string without its leading and
    trailing white space. *)
Fixpoint trimStart (s : jsstring) : jsstring :=
  match s with
  | c :: s' => if Char.isWhiteSpace c then trimStart s' else s
  | [] => []
  end.

Definition trimEnd (s : jsstring) : jsstring := rev (trimStart (rev s)).

Definition trim (s : jsstring) : jsstring := trimEnd (trimStart s).

(** [String.prototype.startsWith], position 0. *)
Fixpoint startsWith (s p : jsstring) {struct p} : bool :=
  match p, s with
  | [], _ => true
  | a :: p', b :: s' => (a =? b) && startsWith s' p'
  | _ :: _, [] => false
  end.

(** [String.prototype.endsWith]. *)
Definition endsWith (s p : jsstring) : bool := startsWith (rev s) (rev p).

(** [String.prototype.split] with a separator of one code unit: the empty
    string splits into one empty string. *)
Fixpoint split (sep : N) (s : jsstring) : list jsstring :=
  match s with
  | [] => [[]]
  | c :: s' =>
      if c =? sep then [] :: split sep s'
      else match split sep s' with
           | l :: ls => (c :: l) :: ls
           | [] => [[c]]
           end
  end.

(** [Array.prototype.join]. *)
Fixpoint join (sep : jsstring) (ls : list jsstring) : jsstring :=
  match ls with
  | [] => []
  | [l] => l
  | l :: ls' => l ++ sep ++ join sep ls'
  end.

(** [btoa]: base64 of a string of code units below 256; it throws
    [InvalidCharacterError] (here [None]) on any other string. *)
Definition base64Alphabet : jsstring :=
  lit "ABCDEFGHIJKLMNOPQRSTUVWXYZabcdefghijklmnopqrstuvwxyz0123456789+/".

Definition base64Digit (n : N) : N := nth (N.to_nat n) base64Alphabet Char.EQUALS.

Fixpoint base64Encode (bytes : list N) : jsstring :=
  match bytes with
  | [] => []
  | [a] =>
      [base64Digit (N.shiftr a 2); base64Digit (N.shiftl (N.land a 3) 4);
       Char.EQUALS; Char.EQUALS]
  | [a; b] =>
      [base64Digit (N.shiftr a 2);
       base64Digit (N.lor (N.shiftl (N.land a 3) 4) (N.shiftr b 4));
       base64Digit (N.shiftl (N.land b 15) 2); Char.EQUALS]
  | a :: b :: c :: rest =>
      base64Digit (N.shiftr a 2)
      :: base64Digit (N.lor (N.shiftl (N.land a 3) 4) (N.shiftr b 4))
      :: base64Digit (N.lor (N.shiftl (N.land b 15) 2) (N.shiftr c 6))
      :: base64Digit (N.land c 63)
      :: base64Encode rest
  end.

Definition btoa (s : jsstring) : option jsstring :=
  if forallb (fun c => c <=? 255) s then Some (base64Encode s) else None.

(** ** Token validation: [isPat]

    [/^[a-z\d]{52,}$/i.test(input)].  The expression has no [u] flag, so a
    character is compared through [Canonicalize] of ECMA-262 (22.2.5.6): the
    upper-casing of the code unit, except that a code unit of 128 or more is
    never mapped below 128.  The upper-casing of the Unicode tables outside
    ASCII is a parameter. *)
Section RegExp.
Variable unicodeUpper : N -> N.

Definition canonicalize (c : N) : N :=
  if c <? 128 then Char.asciiUpper c
  else let cu := unicodeUpper c in if cu <? 128 then c else cu.

(** The members of the class [[a-z\d]]. *)
Definition classMembers : list N :=
  (N.of_nat <$> seq 97 26) ++ (N.of_nat <$> seq 48 10).

Definition classMatch (c : N) : bool :=
  existsb (fun a => canonicalize a =? canonicalize c) classMembers.

(** [[a-z\d]{min,}] followed by the continuation [k], with backtracking. *)
Fixpoint repeatClass (min : nat) (k : jsstring -> bool) (s : jsstring) : bool :=
  match s with
  | c :: s' =>
      (classMatch c && repeatClass (pred min) k s')
      || match min with O => k s | S _ => false end
  | [] => match min with O => k [] | S _ => false end
  end.

Definition atEnd (rest : jsstring) : bool :=
  match rest with [] => true | _ :: _ => false end.

(** One attempt of the matcher at index [i]: [^] holds at index 0 only. *)
Definition matchAt (input : jsstring) (i : nat) : bool :=
  Nat.eqb i 0 && repeatClass 52 atEnd (drop i input).

(** [test] tries every start index from 0 to the length of the input. *)
Definition isPat (input : jsstring) : bool :=
  existsb (matchAt input) (seq 0 (S (length input))).
End RegExp.


(** [===] on strings. *)
Fixpoint strictEquals (a b : jsstring) : bool :=
  match a, b with
  | [], [] => true
  | x :: a', y :: b' => (x =? y) && strictEquals a' b'
  | _, _ => false
  end.

(** ** URL records

    What the getters of a WHATWG [URL] object return: [protocol] ends with a
    colon, [search] and [hash] start with their delimiter when they are not
    empty. *)
Record URL := mkURL {
  url_protocol : jsstring;
  url_username : jsstring;
  url_password : jsstring;
  url_hostname : jsstring;
  url_port : jsstring;
  url_pathname : jsstring;
  url_search : jsstring;
  url_hash : jsstring
}.

(** ** URL patterns

    A compiled [URLPattern] holds one part list per URL component (URL
    Pattern Standard, section 2).  Three kinds of part occur in the patterns
    of this program: fixed text, a named group [:name] (the segment wildcard
    [[^/]+?], lazy, with its prefix) and the full wildcard, written as a star (a greedy
    run of any characters but line terminators). *)
Inductive part :=
| Fixed (text : jsstring)
| Segment (name prefix : jsstring)
| FullWildcard (name : jsstring).

Abbreviation groups := (list (list N * list N)).

(** The lazy loop of a segment wildcard: take one more code unit that is
    not the delimiter, try the rest of the pattern, and take another one
    when the rest fails. *)
Fixpoint segmentLoop (delimiter : N) (k : jsstring -> option groups)
    (name acc s : jsstring) : option groups :=
  match s with
  | [] => None
  | c :: s' =>
      if c =? delimiter then None
      else match k s' with
           | Some g => Some ((name, acc ++ [c]) :: g)
           | None => segmentLoop delimiter k name (acc ++ [c]) s'
           end
  end.

(** The greedy loop of a full wildcard. *)
Fixpoint wildcardLoop (k : jsstring -> option groups)
    (name acc s : jsstring) : option groups :=
  let stop := g ← k s; Some ((name, acc) :: g) in
  match s with
  | [] => stop
  | c :: s' =>
      if Char.isLineTerminator c then stop
      else match wildcardLoop k name (acc ++ [c]) s' with
           | Some r => Some r
           | None => stop
           end
  end.

(** The anchored regular expression of a part list, run on a component. *)
Fixpoint matchParts (delimiter : N) (ps : list part) : jsstring -> option groups :=
  match ps with
  | [] => fun s => match s with [] => Some [] | _ :: _ => None end
  | Fixed text :: ps' => fun s =>
      if startsWith s text then matchParts delimiter ps' (drop (length text) s)
      else None
  | Segment name prefix :: ps' => fun s =>
      if startsWith s prefix
      then segmentLoop delimiter (matchParts delimiter ps') name [] (drop (length prefix) s)
      else None
  | FullWildcard name :: ps' => wildcardLoop (matchParts delimiter ps') name []
  end.

Record URLPattern := mkURLPattern {
  pattern_protocol : list part;
  pattern_username : list part;
  pattern_password : list part;
  pattern_hostname : list part;
  pattern_port : list part;
  pattern_pathname : list part;
  pattern_search : list part;
  pattern_hash : list part
}.

Record URLPatternResult := mkURLPatternResult {
  result_protocol : groups;
  result_username : groups;
  result_password : groups;
  result_hostname : groups;
  result_port : groups;
  result_pathname : groups;
  result_search : groups;
  result_hash : groups
}.

(** The two constants of the source (lines 11 and 12), as the constructor
    of the URL Pattern Standard compiles their strings: the components the
    string gives are fixed, the port that a given host leaves out is the
    empty string, and the components the string does not give (user name,
    password, search, hash) are the wildcard. *)
Definition azureDevOpsOrganizationFeedPattern : URLPattern :=
  {| pattern_protocol := [Fixed (lit "https")];
     pattern_username := [FullWildcard (lit "0")];
     pattern_password := [FullWildcard (lit "0")];
     pattern_hostname := [Fixed (lit "pkgs.dev.azure.com")];
     pattern_port := [];
     pattern_pathname :=
       [Segment (lit "organization") (lit "/"); Fixed (lit "/_packaging");
        Segment (lit "feed") (lit "/"); Fixed (lit "/npm/registry/")];
     pattern_search := [FullWildcard (lit "0")];
     pattern_hash := [FullWildcard (lit "0")] |}.

Definition azureDevOpsProjectFeedPattern : URLPattern :=
  {| pattern_protocol := [Fixed (lit "https")];
     pattern_username := [FullWildcard (lit "0")];
     pattern_password := [FullWildcard (lit "0")];
     pattern_hostname := [Fixed (lit "pkgs.dev.azure.com")];
     pattern_port := [];
     pattern_pathname :=
       [Segment (lit "organization") (lit "/"); Segment (lit "project") (lit "/");
        Fixed (lit "/_packaging"); Segment (lit "feed") (lit "/");
        Fixed (lit "/npm/registry/")];
     pattern_search := [FullWildcard (lit "0")];
     pattern_hash := [FullWildcard (lit "0")] |}.

(** The value of a named group, [groups.name]. *)
Fixpoint group (name : jsstring) (g : groups) : option jsstring :=
  match g with
  | [] => None
  | (n, v) :: g' => if strictEquals n name then Some v else group name g'
  end.

Section URLPatternMatch.
(** [new URL(input)]: the URL parser of the platform, [None] when it
    throws.  [URLPattern] parses a string input with the same parser. *)
Variable parseURL : jsstring -> option URL.

(** [URLPattern.prototype.exec] on a string and no base URL. *)
Definition exec (p : URLPattern) (input : jsstring) : option URLPatternResult :=
  url ← parseURL input;
  protocol ← matchParts 0 (pattern_protocol p) (removelast (url_protocol url));
  username ← matchParts 0 (pattern_username p) (url_username url);
  password ← matchParts 0 (pattern_password p) (url_password url);
  hostname ← matchParts 46 (pattern_hostname p) (url_hostname url);
  port ← matchParts 0 (pattern_port p) (url_port url);
  pathname ← matchParts Char.SLASH (pattern_pathname p) (url_pathname url);
  search ← matchParts 0 (pattern_search p) (tail (url_search url));
  hash ← matchParts 0 (pattern_hash p) (tail (url_hash url));
  Some (mkURLPatternResult protocol username password hostname port pathname search hash).

(** [URLPattern.prototype.test]. *)
Definition test (p : URLPattern) (input : jsstring) : bool :=
  match exec p input with Some _ => true | None => false end.

(** The check of lines 42 and 66. *)
Definition isFeedUrl (value : jsstring) : bool :=
  test azureDevOpsOrganizationFeedPattern value
  || test azureDevOpsProjectFeedPattern value.
End URLPatternMatch.

(** ** The Config Rewriter (lines 133-185 of the source) *)

(** The state of the inner loop: the array [lines], mutated in place, and
    the three flags. *)
Record scanState := mkScanState {
  st_lines : list jsstring;
  replacedUsername : bool;
  replacedPassword : bool;
  replacedEmail : bool
}.

Definition usernamePrefix (globalNpmrcKeyPrefix : jsstring) : jsstring :=
  globalNpmrcKeyPrefix ++ lit ":username".
Definition passwordPrefix (globalNpmrcKeyPrefix : jsstring) : jsstring :=
  globalNpmrcKeyPrefix ++ lit ":_password".
Definition emailPrefix (globalNpmrcKeyPrefix : jsstring) : jsstring :=
  globalNpmrcKeyPrefix ++ lit ":email".

(** The three lines the loop writes. *)
Definition usernameLine (globalNpmrcKeyPrefix : jsstring) : jsstring :=
  usernamePrefix globalNpmrcKeyPrefix ++ lit "=VssSessionToken".
Definition passwordLine (globalNpmrcKeyPrefix password : jsstring) : jsstring :=
  passwordPrefix globalNpmrcKeyPrefix ++ lit "=" ++ password.
Definition emailLine (globalNpmrcKeyPrefix : jsstring) : jsstring :=
  emailPrefix globalNpmrcKeyPrefix ++ lit "=not-used@example.com".

(** One iteration of [for (const index in lines)] (lines 148-168). *)
Definition scanStep (globalNpmrcKeyPrefix password : jsstring)
    (st : scanState) (index : nat) : scanState :=
  match st_lines st !! index with
  | None => st
  | Some stored =>
      let line := trim stored in
      if startsWith line (usernamePrefix globalNpmrcKeyPrefix) then
        mkScanState (<[index := usernameLine globalNpmrcKeyPrefix]> (st_lines st))
          true (replacedPassword st) (replacedEmail st)
      else if startsWith line (passwordPrefix globalNpmrcKeyPrefix) then
        mkScanState (<[index := passwordLine globalNpmrcKeyPrefix password]> (st_lines st))
          (replacedUsername st) true (replacedEmail st)
      else if startsWith line (emailPrefix globalNpmrcKeyPrefix) then
        mkScanState (<[index := emailLine globalNpmrcKeyPrefix]> (st_lines st))
          (replacedUsername st) (replacedPassword st) true
      else st
  end.

(** The body of [for (const feedUrlAsString of url)] once the prefix is
    known (lines 139-181): the scan, then the three conditional pushes. *)
Definition rewriteFeed (globalNpmrcKeyPrefix password : jsstring)
    (lines : list jsstring) : list jsstring :=
  let st := foldl (scanStep globalNpmrcKeyPrefix password)
              (mkScanState lines false false false) (seq 0 (length lines)) in
  let lines1 :=
    if replacedUsername st then st_lines st
    else st_lines st ++ [usernameLine globalNpmrcKeyPrefix] in
  let lines2 :=
    if replacedPassword st then lines1
    else lines1 ++ [passwordLine globalNpmrcKeyPrefix password] in
  if replacedEmail st then lines2
  else lines2 ++ [emailLine globalNpmrcKeyPrefix].

(** Line 137. *)
Definition globalNpmrcKeyPrefix (feedUrl : URL) : jsstring :=
  lit "//" ++ url_hostname feedUrl ++ url_pathname feedUrl.

Section ConfigRewriter.
Variable parseURL : jsstring -> option URL.

(** The outer loop (lines 135-182); [None] when [new URL] throws. *)
Fixpoint rewriteFeeds (url : list jsstring) (password : jsstring)
    (lines : list jsstring) : option (list jsstring) :=
  match url with
  | [] => Some lines
  | feedUrlAsString :: rest =>
      feedUrl ← parseURL feedUrlAsString;
      rewriteFeeds rest password
        (rewriteFeed (globalNpmrcKeyPrefix feedUrl) password lines)
  end.

(** From the text read at line 133 to the text written at line 185. *)
Definition configRewriter (url : list jsstring) (password targetText : jsstring)
    : option jsstring :=
  join [Char.LF] <$> rewriteFeeds url password (split Char.LF targetText).
End ConfigRewriter.

(** ** The process around [main]: console, file system, prompt *)

Inductive event :=
| ConsoleLog (text : jsstring)       (* standard output *)
| ConsoleError (text : jsstring)     (* standard error *)
| ExistsSync (path : jsstring)
| ReadFileSync (path : jsstring)
| MkdirSync (path : jsstring)
| WriteFileSync (path data : jsstring)
| PromptRejected (message : jsstring).

(** The world the process runs in: the text of every regular file, the
    directories, the inputs the user will submit at the prompt, and the
    events so far, oldest first. *)
Record World := mkWorld {
  files : jsstring -> option jsstring;
  directories : jsstring -> bool;
  answers : list jsstring;
  events : list event
}.

(** How a run ends without returning: [process.exit], an uncaught
    exception, or a prompt that no submitted input satisfies. *)
Inductive outcome :=
| Exited (code : N)
| Thrown
| AwaitingInput.

Definition M (A : Type) : Type := World -> (A + outcome) * World.

#[global] Instance M_ret : MRet M := fun A x w => (inl x, w).
#[global] Instance M_bind : MBind M := fun A B k m w =>
  match m w with
  | (inl x, w') => k x w'
  | (inr o, w') => (inr o, w')
  end.

Definition emit (e : event) (w : World) : World :=
  mkWorld (files w) (directories w) (answers w) (events w ++ [e]).

Definition consoleLog (text : jsstring) : M unit :=
  fun w => (inl tt, emit (ConsoleLog text) w).

Definition consoleError (text : jsstring) : M unit :=
  fun w => (inl tt, emit (ConsoleError text) w).

Definition processExit {A} (code : N) : M A :=
  fun w => (inr (Exited code), w).

(** A call that returns or throws. *)
Definition orThrow {A} (r : option A) : M A :=
  fun w => match r with Some x => (inl x, w) | None => (inr Thrown, w) end.

Definition existsSync (path : jsstring) : M bool :=
  fun w =>
    (inl (match files w path with Some _ => true | None => directories w path end),
     emit (ExistsSync path) w).

(** [readFileSync(path, "utf-8")] throws on a path that is not a file. *)
Definition readFileSync (path : jsstring) : M jsstring :=
  fun w =>
    match files w path with
    | Some text => (inl text, emit (ReadFileSync path) w)
    | None => (inr Thrown, emit (ReadFileSync path) w)
    end.

(** [mkdirSync(path, { recursive: true })]; the parents it creates are not
    looked at by the program and are left out. *)
Definition mkdirSync (path : jsstring) : M unit :=
  fun w =>
    (inl tt,
     emit (MkdirSync path)
       (mkWorld (files w)
          (fun p => if strictEquals p path then true else directories w p)
          (answers w) (events w))).

(** [writeFileSync(path, data)]; the write itself is taken to succeed. *)
Definition writeFileSync (path data : jsstring) : M unit :=
  fun w =>
    (inl tt,
     emit (WriteFileSync path data)
       (mkWorld (fun p => if strictEquals p path then Some data else files w p)
          (directories w) (answers w) (events w))).

(** The password prompt of [inquirer]: it asks again, showing the message,
    until [validate] returns [true]. *)
Fixpoint promptWith (validate : jsstring -> jsstring + unit)
    (pending : list jsstring) (w : World) : (jsstring + outcome) * World :=
  match pending with
  | [] => (inr AwaitingInput, mkWorld (files w) (directories w) [] (events w))
  | input :: rest =>
      match validate input with
      | inr _ => (inl input, mkWorld (files w) (directories w) rest (events w))
      | inl message => promptWith validate rest (emit (PromptRejected message) w)
      end
  end.

Definition prompt (validate : jsstring -> jsstring + unit) : M jsstring :=
  fun w => promptWith validate (answers w) w.

Fixpoint forEach {A} (l : list A) (f : A -> M unit) : M unit :=
  match l with
  | [] => mret tt
  | x :: l' => f x ;; forEach l' f
  end.

(** The parsed command line, [program.opts()]. *)
Record Options := mkOptions {
  opt_pat : option jsstring;
  opt_url : option (list jsstring);
  opt_npmrc : jsstring;
  opt_target : jsstring
}.

Definition quoted (s : jsstring) : jsstring := 34 :: s ++ [34].

(** Truthiness of [string | undefined]. *)
Definition truthy (pat : option jsstring) : bool :=
  match pat with Some (_ :: _) => true | _ => false end.

Section Main.
Variable parseURL : jsstring -> option URL.
Variable unicodeUpper : N -> N.
(** [picocolors]. *)
Variables red green cyan bold : jsstring -> jsstring.
Variable untildify : jsstring -> jsstring.
(** [dirname] of [node:path]. *)
Variable dirname : jsstring -> jsstring.
(** [Object.entries(INI.parse(text))], for the files whose entries are
    strings. *)
Variable iniEntries : jsstring -> list (jsstring * jsstring).

Definition patMessage : jsstring :=
  lit "The input does not look like a PAT. Make sure you pasted it correctly.".

Definition expectedTemplate : jsstring :=
  lit "https://pkgs.dev.azure.com/:organization(/:project)/_packaging/:feed/npm/registry/".

Definition invalidUrlMessage (value : jsstring) : jsstring :=
  quoted value ++ lit " is not a valid Azure DevOps NPM feed URL. Expected "
  ++ quoted expectedTemplate.

(** Lines 59-73: the registry entries that are feed URLs, pushed in order. *)
Definition collectFeeds (url : list jsstring) (config : list (jsstring * jsstring))
    : list jsstring :=
  foldl (fun url entry =>
           let '(key, value) := entry in
           let isRegistryEntry :=
             strictEquals key (lit "registry")
             || (startsWith key (lit "@") && endsWith key (lit ":registry")) in
           if negb isRegistryEntry then url
           else if negb (isFeedUrl parseURL value) then url
           else url ++ [value])
        url config.

(** Lines 104-113. *)
Definition validate (input : jsstring) : jsstring + unit :=
  let input := trim input in
  match input with
  | [] => inl (lit "PAT cannot be empty.")
  | _ :: _ => if negb (isPat unicodeUpper input) then inl patMessage else inr tt
  end.

Definition main (options : Options) : M unit :=
  let pat := opt_pat options in
  let url := default [] (opt_url options) in
  let npmrc := untildify (opt_npmrc options) in
  let target := untildify (opt_target options) in
  (* Validate the PAT input *)
  (if truthy pat then
     if negb (isPat unicodeUpper (default [] pat))
     then consoleError (red patMessage) ;; processExit 1
     else mret tt
   else mret tt) ;;
  (* Validate the URL input *)
  forEach url (fun value =>
    if negb (isFeedUrl parseURL value)
    then consoleLog (red (invalidUrlMessage value)) ;; processExit 1
    else mret tt) ;;
  (* If we don't have any URL, we try to get the URLs from the .npmrc file *)
  url ← (if Nat.eqb (length url) 0 then
           found ← existsSync npmrc;
           (if negb found then
              consoleError (red (lit "Failed to find NPM configuration file. "
                                 ++ quoted npmrc ++ lit " does not exist.")) ;;
              processExit 1
            else mret tt) ;;
           text ← readFileSync npmrc;
           mret (collectFeeds url (iniEntries text))
         else mret url);
  (* If we still don't have the URL, we can't continue. *)
  (if Nat.eqb (length url) 0 then
     consoleError (red (lit "Could not find any Azure DevOps feeds in "
                        ++ quoted npmrc
                        ++ lit ". Please add the feed to the file or specify the feed URL with the "
                        ++ quoted (lit "--url") ++ lit " option.")) ;;
     processExit 1
   else mret tt) ;;
  (* If we don't have a PAT, we prompt the user for one. *)
  pat ← (if negb (truthy pat) then
           let firstUrl := default [] (head url) in
           match
             match exec parseURL azureDevOpsOrganizationFeedPattern firstUrl with
             | Some r => Some r
             | None => exec parseURL azureDevOpsProjectFeedPattern firstUrl
             end
           with
           | None =>
               consoleError (red (lit "Failed to parse Azure DevOps feed URL: "
                                  ++ quoted firstUrl)) ;;
               processExit 1
           | Some result =>
               let organization :=
                 default (lit "undefined") (group (lit "organization") (result_pathname result)) in
               let tokensUrl :=
                 lit "https://dev.azure.com/" ++ organization ++ lit "/_usersSettings/tokens" in
               consoleLog (lit "Please generate a PAT at: " ++ cyan tokensUrl) ;;
               consoleLog (lit "Permissions required: "
                           ++ green (lit "Packaging (Read & Write)")) ;;
               untrimmedPat ← prompt validate;
               mret (trim untrimmedPat)
           end
         else mret (default [] pat));
  password ← orThrow (btoa pat);
  (* Create a target file if it does not exist *)
  targetExists ← existsSync target;
  (if negb targetExists then
     let targetDir := dirname target in
     dirExists ← existsSync targetDir;
     (if negb dirExists then mkdirSync targetDir else mret tt) ;;
     writeFileSync target []
   else mret tt) ;;
  targetText ← readFileSync target;
  text ← orThrow (configRewriter parseURL url password targetText);
  writeFileSync target text ;;
  consoleLog (bold (green (lit "Authentication successful."))).

(** [main()] at top level: a run that returns ends the process with
    status 0. *)
Definition run (options : Options) (w : World) : outcome * World :=
  match main options w with
  | (inl _, w') => (Exited 0, w')
  | (inr o, w') => (o, w')
  end.
End Main.

(** ** The two phases of [main]

    [main] first resolves its inputs (lines 26-117: the token and the list
    of feed URLs, or an exit) and then writes the credentials (lines
    119-187).  The two phases are the text of [main] cut after line 117;
    [main_phases] proves that [main] is the first followed by the second. *)
Section Phases.
Variable parseURL : jsstring -> option URL.
Variable unicodeUpper : N -> N.
Variables red green cyan bold : jsstring -> jsstring.
Variable untildify : jsstring -> jsstring.
Variable dirname : jsstring -> jsstring.
Variable iniEntries : jsstring -> list (jsstring * jsstring).

Definition resolveInputs (options : Options) : M (list jsstring * jsstring) :=
  let pat := opt_pat options in
  let url := default [] (opt_url options) in
  let npmrc := untildify (opt_npmrc options) in
  (if truthy pat then
     if negb (isPat unicodeUpper (default [] pat))
     then consoleError (red patMessage) ;; processExit 1
     else mret tt
   else mret tt) ;;
  forEach url (fun value =>
    if negb (isFeedUrl parseURL value)
    then consoleLog (red (invalidUrlMessage value)) ;; processExit 1
    else mret tt) ;;
  url ← (if Nat.eqb (length url) 0 then
           found ← existsSync npmrc;
           (if negb found then
              consoleError (red (lit "Failed to find NPM configuration file. "
                                 ++ quoted npmrc ++ lit " does not exist.")) ;;
              processExit 1
            else mret tt) ;;
           text ← readFileSync npmrc;
           mret (collectFeeds parseURL url (iniEntries text))
         else mret url);
  (if Nat.eqb (length url) 0 then
     consoleError (red (lit "Could not find any Azure DevOps feeds in "
                        ++ quoted npmrc
                        ++ lit ". Please add the feed to the file or specify the feed URL with the "
                        ++ quoted (lit "--url") ++ lit " option.")) ;;
     processExit 1
   else mret tt) ;;
  pat ← (if negb (truthy pat) then
           let firstUrl := default [] (head url) in
           match
             match exec parseURL azureDevOpsOrganizationFeedPattern firstUrl with
             | Some r => Some r
             | None => exec parseURL azureDevOpsProjectFeedPattern firstUrl
             end
           with
           | None =>
               consoleError (red (lit "Failed to parse Azure DevOps feed URL: "
                                  ++ quoted firstUrl)) ;;
               processExit 1
           | Some result =>
               let organization :=
                 default (lit "undefined") (group (lit "organization") (result_pathname result)) in
               let tokensUrl :=
                 lit "https://dev.azure.com/" ++ organization ++ lit "/_usersSettings/tokens" in
               consoleLog (lit "Please generate a PAT at: " ++ cyan tokensUrl) ;;
               consoleLog (lit "Permissions required: "
                           ++ green (lit "Packaging (Read & Write)")) ;;
               untrimmedPat ← prompt (validate unicodeUpper);
               mret (trim untrimmedPat)
           end
         else mret (default [] pat));
  mret (url, pat).

Definition writeCredentials (target : jsstring) (url : list jsstring) (pat : jsstring)
    : M unit :=
  password ← orThrow (btoa pat);
  targetExists ← existsSync target;
  (if negb targetExists then
     let targetDir := dirname target in
     dirExists ← existsSync targetDir;
     (if negb dirExists then mkdirSync targetDir else mret tt) ;;
     writeFileSync target []
   else mret tt) ;;
  targetText ← readFileSync target;
  text ← orThrow (configRewriter parseURL url password targetText);
  writeFileSync target text ;;
  consoleLog (bold (green (lit "Authentication successful."))).
End Phases.

(** The test of lines 60-61 on a key of the project-level file. *)
Definition isRegistryEntry (key : jsstring) : bool :=
  strictEquals key (lit "registry")
  || (startsWith key (lit "@") && endsWith key (lit ":registry")).

(** The message the prompt shows for an input it rejects (lines 110-111). *)
Definition promptMessage (input : jsstring) : jsstring :=
  match trim input with
  | [] => lit "PAT cannot be empty."
  | _ :: _ => patMessage
  end.

(** A computation with a precondition, a postcondition on its result and
    one on the outcome that ends the run. *)
Definition hoare {A} (P : World -> Prop) (m : M A)
    (Q : A -> World -> Prop) (R : outcome -> World -> Prop) : Prop :=
  forall w, P w ->
    match m w with
    | (inl x, w') => Q x w'
    | (inr o, w') => R o w'
    end.


(** The messages of lines 52 and 78. *)
Definition notFoundMessage (npmrc : jsstring) : jsstring :=
  lit "Failed to find NPM configuration file. " ++ quoted npmrc ++ lit " does not exist.".

Definition noFeedsMessage (npmrc : jsstring) : jsstring :=
  lit "Could not find any Azure DevOps feeds in "
  ++ quoted npmrc
  ++ lit ". Please add the feed to the file or specify the feed URL with the "
  ++ quoted (lit "--url") ++ lit " option.".






(** ** A model of the platform's URL parser

    [new URL(input)] is the basic URL parser of the WHATWG URL Standard with
    no base URL.  [Whatwg.parse] follows its states on the inputs it covers
    and answers [Unmodelled] elsewhere: inputs with a code unit outside
    ASCII, schemes that are not special or are [file], hosts that are IPv6
    literals, are percent-encoded, carry an [xn--] label or end in a number,
    and paths with a circumflex (which the Standard encodes and older
    platforms do not).  On an ASCII host without [xn--] labels the domain
    processing of the Standard is ASCII lower-casing. *)
Module Whatwg.
Inductive res (A : Type) :=
| Ok (x : A)
| Failure
| Unmodelled.
Arguments Ok {A} x.
Arguments Failure {A}.
Arguments Unmodelled {A}.

Definition bind {A B} (m : res A) (k : A -> res B) : res B :=
  match m with
  | Ok x => k x
  | Failure => Failure
  | Unmodelled => Unmodelled
  end.

Fixpoint dropWhile (p : N -> bool) (s : jsstring) : jsstring :=
  match s with
  | c :: s' => if p c then dropWhile p s' else s
  | [] => []
  end.

(** The code units before the first one that satisfies [stop], and the
    rest from that one on. *)
Fixpoint breakAt (stop : N -> bool) (s : jsstring) : jsstring * jsstring :=
  match s with
  | [] => ([], [])
  | c :: s' =>
      if stop c then ([], s)
      else let '(a, b) := breakAt stop s' in (c :: a, b)
  end.

Definition isC0ControlOrSpace (c : N) : bool := c <=? 32.
Definition isTabOrNewline (c : N) : bool := (c =? 9) || (c =? 10) || (c =? 13).
Definition isSolidus (c : N) : bool := (c =? 47) || (c =? 92).
Definition isAsciiHexDigit (c : N) : bool :=
  Char.isAsciiDigit c || ((65 <=? c) && (c <=? 70)) || ((97 <=? c) && (c <=? 102)).

(** Percent-encode sets, on ASCII.  The circumflex is left out of the
    path set: [parse] gives up on a path that keeps one. *)
Definition c0ControlSet (c : N) : bool := (c <=? 31) || (126 <? c).
Definition fragmentSet (c : N) : bool :=
  c0ControlSet c || existsb (N.eqb c) [32; 34; 60; 62; 96].
Definition querySet (c : N) : bool :=
  c0ControlSet c || existsb (N.eqb c) [32; 34; 35; 60; 62].
Definition specialQuerySet (c : N) : bool := querySet c || (c =? 39).
Definition pathSet (c : N) : bool :=
  querySet c || existsb (N.eqb c) [63; 96; 123; 125].
Definition userinfoSet (c : N) : bool :=
  pathSet c || existsb (N.eqb c) [47; 58; 59; 61; 64; 91; 92; 93; 94; 124].

Definition hexDigit (n : N) : N := nth (N.to_nat n) (lit "0123456789ABCDEF") 48.

Definition percentEncode (inSet : N -> bool) (c : N) : jsstring :=
  if inSet c then [37; hexDigit (c / 16); hexDigit (c mod 16)] else [c].

Definition encodeWith (inSet : N -> bool) (s : jsstring) : jsstring :=
  flat_map (percentEncode inSet) s.

Definition lower (s : jsstring) : jsstring := Char.asciiLower <$> s.

Definition specialSchemes : list (jsstring * N) :=
  [(lit "ftp", 21); (lit "http", 80); (lit "https", 443); (lit "ws", 80); (lit "wss", 443)].

Fixpoint defaultPort (scheme : jsstring) (table : list (jsstring * N)) : option N :=
  match table with
  | [] => None
  | (s, p) :: table' => if strictEquals s scheme then Some p else defaultPort scheme table'
  end.

(** Scheme start state and scheme state, with no base URL. *)
Definition parseScheme (s : jsstring) : res (jsstring * jsstring) :=
  match s with
  | c :: _ =>
      if Char.isAsciiAlpha c then
        let '(scheme, rest) :=
          breakAt (fun c => negb (Char.isAsciiAlphanumeric c
                                  || existsb (N.eqb c) [43; 45; 46])) s in
        match rest with
        | 58 :: rest' => Ok (lower scheme, rest')
        | _ => Failure
        end
      else Failure
  | [] => Failure
  end.

(** Authority state: the credentials are what precedes the last [@]. *)
Definition splitCredentials (authority : jsstring) : option jsstring * jsstring :=
  let '(hostRev, rest) := breakAt (N.eqb 64) (rev authority) in
  match rest with
  | _ :: credentialsRev => (Some (rev credentialsRev), rev hostRev)
  | [] => (None, authority)
  end.

Definition isDecimal (s : jsstring) : bool :=
  match s with [] => false | _ :: _ => forallb Char.isAsciiDigit s end.

Definition isHexNumber (s : jsstring) : bool :=
  match s with
  | 48 :: x :: digits => ((x =? 120) || (x =? 88)) && forallb isAsciiHexDigit digits
  | _ => false
  end.

(** The ends-in-a-number checker. *)
Definition endsInNumber (host : jsstring) : bool :=
  let parts := split 46 host in
  let parts := match rev parts with
               | [] :: (_ :: _) as others => rev others
               | _ => parts
               end in
  match rev parts with
  | last :: _ => isDecimal last || isHexNumber last
  | [] => false
  end.

Definition forbiddenDomainCodePoint (c : N) : bool :=
  (c <=? 32) || (c =? 127)
  || existsb (N.eqb c) [35; 37; 47; 58; 60; 62; 63; 64; 91; 92; 93; 94; 124].

(** Host parsing of a special URL. *)
Definition parseHost (buffer : jsstring) : res jsstring :=
  match buffer with
  | [] => Failure
  | _ :: _ =>
      if existsb (fun c => (c =? 91) || (c =? 93) || (c =? 37)) buffer then Unmodelled
      else if existsb (fun label => startsWith (lower label) (lit "xn--")) (split 46 buffer)
      then Unmodelled
      else
        let asciiDomain := lower buffer in
        if existsb forbiddenDomainCodePoint asciiDomain then Failure
        else if endsInNumber asciiDomain then Unmodelled
        else Ok asciiDomain
  end.

Fixpoint decimalValue (acc : N) (digits : jsstring) : N :=
  match digits with
  | [] => acc
  | d :: digits' => decimalValue (10 * acc + (d - 48)) digits'
  end.

Definition decimalDigits (n : N) : jsstring :=
  lit (DecimalString.NilZero.string_of_uint (N.to_uint n)).

(** Port state; the result is what the [port] getter returns. *)
Definition parsePort (scheme buffer : jsstring) : res jsstring :=
  if negb (forallb Char.isAsciiDigit buffer) then Failure
  else match buffer with
       | [] => Ok []
       | _ :: _ =>
           let port := decimalValue 0 buffer in
           if 65535 <? port then Failure
           else match defaultPort scheme specialSchemes with
                | Some d => if port =? d then Ok [] else Ok (decimalDigits port)
                | None => Ok (decimalDigits port)
                end
       end.

Definition isSingleDot (buffer : jsstring) : bool :=
  let b := lower buffer in
  strictEquals b (lit ".") || strictEquals b (lit "%2e").

Definition isDoubleDot (buffer : jsstring) : bool :=
  let b := lower buffer in
  strictEquals b (lit "..") || strictEquals b (lit ".%2e")
  || strictEquals b (lit "%2e.") || strictEquals b (lit "%2e%2e").

(** What the path state does with the buffer at the end of a segment;
    [atSolidus] tells whether the segment ends at a solidus. *)
Definition finishSegment (path : list jsstring) (buffer : jsstring) (atSolidus : bool)
    : list jsstring :=
  if isDoubleDot buffer then
    if atSolidus then removelast path else removelast path ++ [[]]
  else if isSingleDot buffer then
    if atSolidus then path else path ++ [[]]
  else path ++ [buffer].

(** Path state of a special URL: the path and the input left at [?],
    [#] or the end. *)
Fixpoint pathState (path : list jsstring) (buffer s : jsstring)
    : list jsstring * jsstring :=
  match s with
  | [] => (finishSegment path buffer false, [])
  | c :: s' =>
      if isSolidus c then pathState (finishSegment path buffer true) [] s'
      else if (c =? 63) || (c =? 35) then (finishSegment path buffer false, s)
      else pathState path (buffer ++ percentEncode pathSet c) s'
  end.

Definition serializePath (path : list jsstring) : jsstring :=
  flat_map (fun segment => 47 :: segment) path.

Definition parse (input : jsstring) : res URL :=
  let input := rev (dropWhile isC0ControlOrSpace (rev (dropWhile isC0ControlOrSpace input))) in
  let input := filter (fun c => negb (isTabOrNewline c)) input in
  if existsb (fun c => 128 <=? c) input then Unmodelled
  else
    bind (parseScheme input) (fun '(scheme, rest) =>
    match defaultPort scheme specialSchemes with
    | None => Unmodelled
    | Some _ =>
        (* special authority slashes and special authority ignore slashes *)
        let rest := dropWhile isSolidus rest in
        let '(authority, rest) :=
          breakAt (fun c => isSolidus c || (c =? 63) || (c =? 35)) rest in
        let '(credentials, hostport) := splitCredentials authority in
        let '(hostBuffer, portRest) := breakAt (N.eqb 58) hostport in
        let '(username, password) :=
          match credentials with
          | None => ([], [])
          | Some cs =>
              let '(u, p) := breakAt (N.eqb 58) cs in
              (encodeWith userinfoSet u, encodeWith userinfoSet (tail p))
          end in
        bind (parseHost hostBuffer) (fun hostname =>
        bind (parsePort scheme (tail portRest)) (fun port =>
        (* path start state *)
        let rest := match rest with
                    | c :: rest' => if isSolidus c then rest' else rest
                    | [] => []
                    end in
        let '(path, rest) := pathState [] [] rest in
        if existsb (existsb (N.eqb 94)) path then Unmodelled
        else
          let '(query, fragment) :=
            match rest with
            | 63 :: q => breakAt (N.eqb 35) q
            | _ => ([], rest)
            end in
          let query := encodeWith specialQuerySet query in
          let fragment := encodeWith fragmentSet (tail fragment) in
          Ok (mkURL (scheme ++ [58]) username password hostname port
                (serializePath path)
                (match query with [] => [] | _ :: _ => 63 :: query end)
                (match fragment with [] => [] | _ :: _ => 35 :: fragment end))))
    end).

(** [new URL(input)] on the inputs the model covers. *)
Definition newURL (input : jsstring) : option URL :=
  match parse input with
  | Ok u => Some u
  | Failure | Unmodelled => None
  end.
End Whatwg.

(** ** Vocabulary of the specification

    The three sub-keys of a feed, the test the loop makes on a stored line,
    and the loop body read as a substitution on every line followed by the
    pushes; [rewriteFeed_eq] below proves that reading. *)
Inductive subKey := Username | Password | Email.

#[global] Instance subKey_eq_dec : EqDecision subKey.
Proof. solve_decision. Defined.

Definition subKeyPrefix (prefix : jsstring) (k : subKey) : jsstring :=
  match k with
  | Username => usernamePrefix prefix
  | Password => passwordPrefix prefix
  | Email => emailPrefix prefix
  end.

Definition subKeyLine (prefix password : jsstring) (k : subKey) : jsstring :=
  match k with
  | Username => usernameLine prefix
  | Password => passwordLine prefix password
  | Email => emailLine prefix
  end.

(** The trimmed content of the stored line starts with the key. *)
Definition matchesKey (stored key : jsstring) : bool := startsWith (trim stored) key.

(** The first of the three tests of the loop that the line passes. *)
Definition classify (prefix stored : jsstring) : option subKey :=
  if matchesKey stored (usernamePrefix prefix) then Some Username
  else if matchesKey stored (passwordPrefix prefix) then Some Password
  else if matchesKey stored (emailPrefix prefix) then Some Email
  else None.

Definition substitute (prefix password stored : jsstring) : jsstring :=
  match classify prefix stored with
  | Some k => subKeyLine prefix password k
  | None => stored
  end.

Definition hasKey (prefix : jsstring) (k : subKey) (lines : list jsstring) : bool :=
  existsb (fun stored => bool_decide (classify prefix stored = Some k)) lines.

Definition pushed (prefix password : jsstring) (lines : list jsstring) : list jsstring :=
  (if hasKey prefix Username lines then [] else [usernameLine prefix])
  ++ (if hasKey prefix Password lines then [] else [passwordLine prefix password])
  ++ (if hasKey prefix Email lines then [] else [emailLine prefix]).

(** The shape of a path that conforms to a template. *)
Definition isSegment (s : jsstring) : Prop := s <> [] /\ Char.SLASH ∉ s.

Definition organizationPath (organization feed : jsstring) : jsstring :=
  lit "/" ++ organization ++ lit "/_packaging/" ++ feed ++ lit "/npm/registry/".

Definition projectPath (organization project feed : jsstring) : jsstring :=
  lit "/" ++ organization ++ lit "/" ++ project ++ lit "/_packaging/" ++ feed
  ++ lit "/npm/registry/".

Definition feedPath (path : jsstring) : Prop :=
  (exists organization feed,
      isSegment organization /\ isSegment feed
      /\ path = organizationPath organization feed)
  \/ (exists organization project feed,
      isSegment organization /\ isSegment project /\ isSegment feed
      /\ path = projectPath organization project feed).

(** The key prefix of a feed the Matcher accepts. *)
Definition feedPrefix (prefix : jsstring) : Prop :=
  exists path, feedPath path /\ prefix = lit "//pkgs.dev.azure.com" ++ path.

(** The value written after the equals sign of a sub-key. *)
Definition subKeyValue (password : jsstring) (k : subKey) : jsstring :=
  match k with
  | Username => lit "VssSessionToken"
  | Password => password
  | Email => lit "not-used@example.com"
  end.

(** The outer loop on the key prefixes of the feeds. *)
Definition rewritePrefixes (prefixes : list jsstring) (password : jsstring)
    (lines : list jsstring) : list jsstring :=
  foldl (fun lines prefix => rewriteFeed prefix password lines) lines prefixes.

(** A file that the loop body leaves as it is: every line that matches a
    sub-key is the line of that sub-key, and every sub-key has a line. *)
Definition saturated (prefix password : jsstring) (lines : list jsstring) : Prop :=
  (forall stored k, stored ∈ lines -> classify prefix stored = Some k ->
                    stored = subKeyLine prefix password k)
  /\ (forall k, hasKey prefix k lines = true).

(** The key prefix the outer loop computes for a feed URL (lines 136-137). *)
Definition keyPrefixOf (parseURL : jsstring -> option URL) (feedUrlAsString : jsstring)
    : jsstring :=
  match parseURL feedUrlAsString with
  | Some feedUrl => globalNpmrcKeyPrefix feedUrl
  | None => []
  end.

(** How many lines match a key. *)
Definition countMatching (key : jsstring) (lines : list jsstring) : nat :=
  length (filter (fun stored => matchesKey stored key = true) lines).

(** The rest of a pattern cannot start on a code unit that is not the
    delimiter [d]. *)
Definition needsDelimiter (d : N) (k : jsstring -> option groups) : Prop :=
  forall c s, c <> d -> k (c :: s) = None.

(** A string without line terminators: what a full wildcard accepts. *)
Definition singleLine (s : jsstring) : Prop :=
  Forall (fun c => Char.isLineTerminator c = false) s.

(** The parsed URLs the two patterns accept, whatever their path. *)
Definition feedOrigin (url : URL) : Prop :=
  removelast (url_protocol url) = lit "https"
  /\ url_hostname url = lit "pkgs.dev.azure.com"
  /\ url_port url = []
  /\ singleLine (url_username url) /\ singleLine (url_password url)
  /\ singleLine (tail (url_search url)) /\ singleLine (tail (url_hash url)).

(** The reading of "conforms to a template" on the text of the input. *)
Definition conformsToTemplate (input : jsstring) : Prop :=
  exists path, feedPath path /\ input = lit "https://pkgs.dev.azure.com" ++ path.

(** ** Vocabulary for runs of [main] *)

(** The path a file system event is about. *)
Definition accessedPath (e : event) : option jsstring :=
  match e with
  | ExistsSync path | ReadFileSync path | MkdirSync path | WriteFileSync path _ => Some path
  | ConsoleLog _ | ConsoleError _ | PromptRejected _ => None
  end.

(** Every event a computation adds satisfies [ok]. *)
Definition logs {A} (ok : event -> Prop) (m : M A) : Prop :=
  forall w, exists new, events (m w).2 = events w ++ new /\ Forall ok new.

(** Two worlds that are the same but for what is stored at [path]. *)
Definition agreeOff (path : jsstring) (w w' : World) : Prop :=
  (forall q, q <> path -> files w q = files w' q)
  /\ (forall q, directories w q = directories w' q)
  /\ answers w = answers w'
  /\ events w = events w'.

(** A computation that does the same in two such worlds. *)
Definition respects {A} (path : jsstring) (m : M A) : Prop :=
  forall w w', agreeOff path w w' ->
    (m w).1 = (m w').1 /\ agreeOff path (m w).2 (m w').2.

(** The text a run printed on standard error. *)
Definition standardError (es : list event) : list jsstring :=
  omap (fun e => match e with ConsoleError text => Some text | _ => None end) es.

(** The text a run printed on standard output. *)
Definition standardOutput (es : list event) : list jsstring :=
  omap (fun e => match e with ConsoleLog text => Some text | _ => None end) es.

(** ** Inputs of the examples *)

Definition exampleUrl : jsstring :=
  lit "https://pkgs.dev.azure.com/myorg/_packaging/myfeed/npm/registry/".

Definition projectScopedExample : jsstring :=
  lit "https://pkgs.dev.azure.com/myorg/myproj/_packaging/myfeed/npm/registry/".

Definition upperCaseExample : jsstring :=
  lit "HTTPS://PKGS.DEV.AZURE.COM/myorg/_packaging/myfeed/npm/registry/".

Definition dotSegmentExample : jsstring :=
  lit "https://pkgs.dev.azure.com/../_packaging/myfeed/npm/registry/".

Definition examplePrefix : jsstring :=
  lit "//pkgs.dev.azure.com/myorg/_packaging/myfeed/npm/registry/".

(** 52 times the letter A, and its base64. *)
Definition exampleToken : jsstring := replicate 52 65.

Definition examplePassword : jsstring :=
  lit "QUFBQUFBQUFBQUFBQUFBQUFBQUFBQUFBQUFBQUFBQUFBQUFBQUFBQUFBQUFBQUFBQUFBQQ==".

(** A target file with a comment, another registry, an indented user name
    line, two password lines, a line of a longer key, and a final newline. *)
Definition exampleLines : list jsstring :=
  [lit "# npm configuration";
   lit "registry=https://registry.npmjs.org/";
   lit "  //pkgs.dev.azure.com/myorg/_packaging/myfeed/npm/registry/:username=me  ";
   lit "//pkgs.dev.azure.com/myorg/_packaging/myfeed/npm/registry/:_password=b2xk";
   lit "//pkgs.dev.azure.com/myorg/_packaging/myfeed/npm/registry/:_password=b2xkZXI=";
   lit "//pkgs.dev.azure.com/myorg/_packaging/myfeed/npm/registry/:emailaddress=x";
   []].

Definition exampleTarget : jsstring := join [Char.LF] exampleLines.

(** A world with no file and no directory, and nobody at the prompt. *)
Definition emptyWorld : World :=
  mkWorld (fun _ => None) (fun _ => false) [] [].

(** A run of the example: [--pat] and [--url] given, the default paths,
    colours off, a home directory that does not exist yet. *)
Definition exampleOptions (npmrc : jsstring) : Options :=
  mkOptions (Some exampleToken) (Some [exampleUrl]) npmrc (lit "/home/me/.npmrc").

Definition exampleRun (npmrc : jsstring) : outcome * World :=
  run Whatwg.newURL id id id id id id (fun _ => lit "/home/me") (fun _ => [])
    (exampleOptions npmrc) emptyWorld.

(** A world whose only file is the project-level file [./.npmrc], with
    somebody at the prompt. *)
Definition projectWorld (text : jsstring) (inputs : list jsstring) : World :=
  mkWorld (fun path => if strictEquals path (lit "./.npmrc") then Some text else None)
    (fun _ => false) inputs [].

(** Entries of a project-level file that names the example feed, and of one
    that names the public registry. *)
Definition feedEntries : list (jsstring * jsstring) :=
  [(lit "registry", exampleUrl); (lit "always-auth", lit "true")].

Definition publicEntries : list (jsstring * jsstring) :=
  [(lit "registry", lit "https://registry.npmjs.org/"); (lit "always-auth", lit "true")].

(** * Properties *)

Example parse_org_feed :
  Whatwg.parse (lit "https://pkgs.dev.azure.com/myorg/_packaging/myfeed/npm/registry/")
  = Whatwg.Ok (mkURL (lit "https:") [] [] (lit "pkgs.dev.azure.com") []
                 (lit "/myorg/_packaging/myfeed/npm/registry/") [] []).
Proof. vm_compute. reflexivity. Qed.

Example parse_normalises :
  Whatwg.parse (lit " HTTPS:\\u:p@PKGS.dev.azure.com:443/a/./b/../c d?q r#f g")
  = Whatwg.Ok (mkURL (lit "https:") (lit "u") (lit "p") (lit "pkgs.dev.azure.com") []
                 (lit "/a/c%20d") (lit "?q%20r") (lit "#f%20g")).
Proof. vm_compute. reflexivity. Qed.

Example parse_port :
  Whatwg.parse (lit "http://example.org:8080") 
  = Whatwg.Ok (mkURL (lit "http:") [] [] (lit "example.org") (lit "8080") (lit "/") [] []).
Proof. vm_compute. reflexivity. Qed.

Example parse_no_scheme : Whatwg.parse (lit "foo") = Whatwg.Failure.
Proof. vm_compute. reflexivity. Qed.

(** ** String primitives *)

Lemma startsWith_app (p r : jsstring) : startsWith (p ++ r) p = true.
Proof.
  induction p as [|a p IH]; simpl; [done|].
  by rewrite N.eqb_refl, IH.
Qed.

Lemma startsWith_inv (s p : jsstring) :
  startsWith s p = true -> exists r, s = p ++ r.
Proof.
  revert s. induction p as [|a p IH]; intros s H; simpl in *.
  - by exists s.
  - destruct s as [|b s]; [done|].
    apply andb_true_iff in H as [Hab Hs]. apply N.eqb_eq in Hab as ->.
    destruct (IH _ Hs) as [r ->]. by exists r.
Qed.

Lemma startsWith_iff (s p : jsstring) :
  startsWith s p = true <-> exists r, s = p ++ r.
Proof.
  split; [apply startsWith_inv|]. intros [r ->]. apply startsWith_app.
Qed.

Lemma startsWith_drop (s p : jsstring) :
  startsWith s p = true -> s = p ++ drop (length p) s.
Proof.
  intros [r ->]%startsWith_inv. by rewrite drop_app_length.
Qed.



Lemma split_not_nil (sep : N) (s : jsstring) : split sep s <> [].
Proof.
  destruct s as [|c s]; simpl; [done|].
  destruct (c =? sep); [done|]. by destruct (split sep s).
Qed.

Lemma split_no_sep (sep : N) (s : jsstring) :
  Forall (fun l => sep ∉ l) (split sep s).
Proof.
  induction s as [|c s IH]; simpl.
  - repeat constructor. apply not_elem_of_nil.
  - destruct (N.eqb_spec c sep) as [->|Hne].
    + constructor; [apply not_elem_of_nil | done].
    + destruct (split sep s) as [|l ls]; simpl.
      * repeat constructor. rewrite list_elem_of_singleton. congruence.
      * inversion IH; subst. constructor; [|done].
        rewrite elem_of_cons. intros [?|?]; [congruence | done].
Qed.

Lemma split_fresh (sep : N) (a : jsstring) : sep ∉ a -> split sep a = [a].
Proof.
  induction a as [|c a IH]; intros H; simpl; [done|].
  apply not_elem_of_cons in H as [Hc Ha].
  destruct (N.eqb_spec c sep) as [->|_]; [done|]. by rewrite IH.
Qed.

Lemma split_app_sep (sep : N) (a b : jsstring) :
  sep ∉ a -> split sep (a ++ sep :: b) = a :: split sep b.
Proof.
  induction a as [|c a IH]; intros H; simpl.
  - by rewrite N.eqb_refl.
  - apply not_elem_of_cons in H as [Hc Ha].
    destruct (N.eqb_spec c sep) as [->|_]; [done|]. by rewrite IH.
Qed.

(** Splitting what was joined gives the lines back, when no line holds the
    separator. *)
Lemma split_join (sep : N) (ls : list jsstring) :
  ls <> [] -> Forall (fun l => sep ∉ l) ls -> split sep (join [sep] ls) = ls.
Proof.
  induction ls as [|l ls IH]; intros Hne Hall; [done|].
  inversion Hall as [|? ? Hl Hls]; subst.
  destruct ls as [|l' ls]; simpl.
  - by apply split_fresh.
  - change (split sep (l ++ sep :: join [sep] (l' :: ls)) = l :: l' :: ls).
    rewrite split_app_sep by done. f_equal. by apply IH.
Qed.

Lemma join_split (sep : N) (s : jsstring) : join [sep] (split sep s) = s.
Proof.
  induction s as [|c s IH]; simpl; [done|].
  destruct (N.eqb_spec c sep) as [->|Hne].
  - pose proof (split_not_nil sep s) as Hnil.
    destruct (split sep s) as [|l ls]; [done|]. simpl in *. by rewrite IH.
  - pose proof (split_not_nil sep s) as Hnil.
    destruct (split sep s) as [|l ls]; [done|].
    destruct ls as [|l' ls]; simpl in *; by rewrite <- IH.
Qed.

Example btoa_Man : btoa (lit "Man") = Some (lit "TWFu").
Proof. reflexivity. Qed.

Example btoa_pad : btoa (lit "Ma") = Some (lit "TWE=") /\ btoa (lit "M") = Some (lit "TQ==").
Proof. split; reflexivity. Qed.

Example split_empty : split Char.LF [] = [[]].
Proof. reflexivity. Qed.

Example split_join_example :
  split Char.LF (lit "a" ++ Char.LF :: lit "b" ++ [Char.LF]) = [lit "a"; lit "b"; []]
  /\ join [Char.LF] [lit "a"; lit "b"; []] = lit "a" ++ Char.LF :: lit "b" ++ [Char.LF].
Proof. split; reflexivity. Qed.

Example trim_example : trim (32 :: 9 :: lit "a b" ++ [160; 10]) = lit "a b".
Proof. reflexivity. Qed.

Lemma trimStart_app_kept (x z : jsstring) (c : N) :
  Char.isWhiteSpace c = false -> trimStart (x ++ c :: z) = trimStart x ++ c :: z.
Proof.
  intros Hc. induction x as [|a x IH]; simpl.
  - by rewrite Hc.
  - destruct (Char.isWhiteSpace a); [apply IH | done].
Qed.

(** Trimming keeps a prefix that starts and ends with code units that are
    not white space. *)
Lemma trim_keeps (a b y : jsstring) (c d : N) :
  Char.isWhiteSpace c = false -> Char.isWhiteSpace d = false ->
  trim (c :: a ++ d :: y) = c :: a ++ d :: trimEnd y.
Proof.
  intros Hc Hd. unfold trim. simpl. rewrite Hc. unfold trimEnd.
  change (c :: a ++ d :: y) with ((c :: a) ++ d :: y).
  rewrite rev_app_distr. simpl rev at 1.
  rewrite <- app_assoc. simpl.
  rewrite trimStart_app_kept by done.
  rewrite rev_app_distr. simpl. rewrite rev_app_distr. simpl.
  rewrite rev_involutive. by rewrite <- app_assoc.
Qed.

(** ** The inner loop as a substitution *)

Lemma scanStep_classify (prefix password : jsstring) (st : scanState) (index : nat)
    (stored : jsstring) :
  st_lines st !! index = Some stored ->
  scanStep prefix password st index
  = match classify prefix stored with
    | Some Username =>
        mkScanState (<[index := usernameLine prefix]> (st_lines st))
          true (replacedPassword st) (replacedEmail st)
    | Some Password =>
        mkScanState (<[index := passwordLine prefix password]> (st_lines st))
          (replacedUsername st) true (replacedEmail st)
    | Some Email =>
        mkScanState (<[index := emailLine prefix]> (st_lines st))
          (replacedUsername st) (replacedPassword st) true
    | None => st
    end.
Proof.
  intros H. unfold scanStep, classify, matchesKey. rewrite H.
  destruct (startsWith (trim stored) (usernamePrefix prefix)); [done|].
  destruct (startsWith (trim stored) (passwordPrefix prefix)); [done|].
  by destruct (startsWith (trim stored) (emailPrefix prefix)).
Qed.

Lemma hasKey_cons (prefix : jsstring) (k : subKey) (l : jsstring) (lines : list jsstring) :
  hasKey prefix k (l :: lines)
  = bool_decide (classify prefix l = Some k) || hasKey prefix k lines.
Proof. reflexivity. Qed.

Lemma scan_loop (prefix password : jsstring) (todo done : list jsstring) (fu fp fe : bool) :
  foldl (scanStep prefix password) (mkScanState (done ++ todo) fu fp fe)
    (seq (length done) (length todo))
  = mkScanState (done ++ (substitute prefix password <$> todo))
      (fu || hasKey prefix Username todo)
      (fp || hasKey prefix Password todo)
      (fe || hasKey prefix Email todo).
Proof.
  revert done fu fp fe.
  induction todo as [|l todo IH]; intros done fu fp fe.
  - simpl. by rewrite !orb_false_r.
  - assert (Hins : forall x, <[length done := x]> (done ++ l :: todo) = (done ++ [x]) ++ todo).
    { intros x. rewrite insert_app_r_alt by lia. rewrite Nat.sub_diag. simpl.
      by rewrite <- app_assoc. }
    assert (Hlen : forall x : jsstring, S (length done) = length (done ++ [x])).
    { intros x. rewrite length_app. simpl. lia. }
    cbn [length seq foldl].
    rewrite (scanStep_classify _ _ _ _ l) by (simpl; by rewrite list_lookup_middle).
    rewrite !hasKey_cons. cbn [fmap list_fmap]. unfold substitute at 1.
    cbn [st_lines replacedUsername replacedPassword replacedEmail].
    destruct (classify prefix l) as [[]|] eqn:Hc.
    + rewrite Hins, (Hlen (usernameLine prefix)), IH, <- app_assoc. simpl.
      f_equal. by rewrite orb_true_r.
    + rewrite Hins, (Hlen (passwordLine prefix password)), IH, <- app_assoc. simpl.
      f_equal. by rewrite orb_true_r.
    + rewrite Hins, (Hlen (emailLine prefix)), IH, <- app_assoc. simpl.
      f_equal. by rewrite orb_true_r.
    + replace (done ++ l :: todo) with ((done ++ [l]) ++ todo) by by rewrite <- app_assoc.
      rewrite (Hlen l), IH, <- app_assoc. by simpl.
Qed.

(** The loop body replaces every line by its substitute and pushes the
    lines of the sub-keys that no line matched. *)
Lemma rewriteFeed_eq (prefix password : jsstring) (lines : list jsstring) :
  rewriteFeed prefix password lines
  = (substitute prefix password <$> lines) ++ pushed prefix password lines.
Proof.
  unfold rewriteFeed.
  pose proof (scan_loop prefix password lines [] false false false) as H.
  simpl in H. rewrite H. simpl. unfold pushed.
  destruct (hasKey prefix Username lines), (hasKey prefix Password lines),
    (hasKey prefix Email lines); simpl; by rewrite <- ?app_assoc, ?app_nil_r.
Qed.

(** ** Token validation *)

Section IsPat.
Variable unicodeUpper : N -> N.

Lemma canonicalize_high (c : N) : 128 <= c -> 128 <= canonicalize unicodeUpper c.
Proof.
  intros Hc. unfold canonicalize.
  destruct (N.ltb_spec c 128) as [|_]; [lia|].
  simpl. destruct (N.ltb_spec (unicodeUpper c) 128); lia.
Qed.

Lemma classMatch_high (c : N) : 128 <= c -> classMatch unicodeUpper c = false.
Proof.
  intros Hc. apply not_true_is_false. unfold classMatch.
  intros (a & Ha & Heq)%existsb_exists. apply N.eqb_eq in Heq.
  pose proof (canonicalize_high c Hc) as Hhigh.
  assert (Hlow : forallb (fun a => canonicalize unicodeUpper a <? 128) classMembers = true)
    by (vm_compute; reflexivity).
  rewrite forallb_forall in Hlow. specialize (Hlow a Ha).
  apply N.ltb_lt in Hlow. lia.
Qed.

Lemma classMatch_low (c : N) :
  c < 128 -> classMatch unicodeUpper c = Char.isAsciiAlphanumeric c.
Proof.
  intros Hc.
  assert (Hall : forallb (fun c => Bool.eqb (classMatch unicodeUpper c)
                                     (Char.isAsciiAlphanumeric c))
                   (N.of_nat <$> seq 0 128) = true)
    by (vm_compute; reflexivity).
  rewrite forallb_forall in Hall.
  apply eqb_prop, Hall. apply list_elem_of_In, list_elem_of_fmap.
  exists (N.to_nat c). split; [by rewrite N2Nat.id|].
  apply list_elem_of_In, in_seq. lia.
Qed.

(** With the [i] flag and no [u] flag, the class accepts the ASCII
    letters and digits and nothing else. *)
Lemma classMatch_alphanumeric (c : N) :
  classMatch unicodeUpper c = Char.isAsciiAlphanumeric c.
Proof.
  destruct (N.lt_ge_cases c 128) as [Hc|Hc]; [by apply classMatch_low|].
  rewrite classMatch_high by done. symmetry.
  unfold Char.isAsciiAlphanumeric, Char.isAsciiDigit, Char.isAsciiAlpha,
    Char.isAsciiUpper, Char.isAsciiLower.
  repeat match goal with
         | |- context [?a <=? ?b] => destruct (N.leb_spec a b); try lia
         end; reflexivity.
Qed.

Lemma repeatClass_atEnd (min : nat) (s : jsstring) :
  repeatClass unicodeUpper min atEnd s = true
  <-> (min <= length s)%nat /\ forallb (classMatch unicodeUpper) s = true.
Proof.
  revert min. induction s as [|c s IH]; intros min; simpl.
  - destruct min; simpl; split; intros; try done; try lia.
  - rewrite orb_true_iff, !andb_true_iff, IH.
    destruct min; simpl; intuition lia.
Qed.

Lemma matchAt_only_at_0 (input : jsstring) (n : nat) :
  existsb (matchAt unicodeUpper input) (seq 1 n) = false.
Proof.
  apply not_true_is_false. intros (i & Hi & Hm)%existsb_exists.
  apply in_seq in Hi. unfold matchAt in Hm.
  destruct i; [lia | done].
Qed.

Lemma isPat_matchAt_0 (input : jsstring) :
  isPat unicodeUpper input = repeatClass unicodeUpper 52 atEnd input.
Proof.
  unfold isPat. cbn [seq existsb]. rewrite matchAt_only_at_0, orb_false_r.
  unfold matchAt. by rewrite drop_0.
Qed.
End IsPat.

(** C5: [isPat] accepts a string exactly when it has at least 52 code units
    and every one of them is an ASCII letter or digit, whatever the case. *)
Theorem isPat_spec (unicodeUpper : N -> N) (input : jsstring) :
  isPat unicodeUpper input = true
  <-> (52 <= length input)%nat
      /\ Forall (fun c => Char.isAsciiAlphanumeric c = true) input.
Proof.
  rewrite isPat_matchAt_0, repeatClass_atEnd.
  rewrite forallb_forall, Forall_forall.
  split; intros [Hlen Hall]; (split; [done|]); intros c Hc.
  - rewrite <- classMatch_alphanumeric with (unicodeUpper := unicodeUpper).
    by apply Hall.
  - rewrite classMatch_alphanumeric. by apply Hall.
Qed.

Example isPat_52_A : forall up, isPat up (replicate 52 65) = true.
Proof. intros up. vm_compute. reflexivity. Qed.

Example isPat_51_A : forall up, isPat up (replicate 51 65) = false.
Proof. intros up. vm_compute. reflexivity. Qed.

Example isPat_rejects_dash : forall up, isPat up (replicate 52 65 ++ lit "-") = false.
Proof. intros up. vm_compute. reflexivity. Qed.

(** ** The URL Matcher *)

Section Parts.
Variable d : N.

Lemma matchParts_nil (s : jsstring) (g : groups) :
  matchParts d [] s = Some g <-> s = [] /\ g = [].
Proof. destruct s; simpl; intuition congruence. Qed.

Lemma matchParts_fixed (text : jsstring) (ps : list part) (s : jsstring) (g : groups) :
  matchParts d (Fixed text :: ps) s = Some g
  <-> exists rest, s = text ++ rest /\ matchParts d ps rest = Some g.
Proof.
  simpl. split.
  - destruct (startsWith s text) eqn:Hs; [|done].
    intros H. exists (drop (length text) s). split; [|done].
    by apply startsWith_drop.
  - intros (rest & -> & H). by rewrite startsWith_app, drop_app_length.
Qed.

Lemma segmentLoop_inv (k : jsstring -> option groups) (name acc s : jsstring) (g : groups) :
  segmentLoop d k name acc s = Some g ->
  exists o rest g',
    s = o ++ rest /\ o <> [] /\ (d ∉ o) /\ k rest = Some g' /\ g = (name, acc ++ o) :: g'.
Proof.
  revert acc. induction s as [|c s IH]; intros acc H; simpl in H; [done|].
  destruct (N.eqb_spec c d) as [|Hc]; [done|].
  destruct (k s) as [g'|] eqn:Hk.
  - inversion H; subst. exists [c], s, g'. repeat split; try done.
    rewrite list_elem_of_singleton. congruence.
  - destruct (IH _ H) as (o & rest & g' & -> & Ho & Hd & Hrest & ->).
    exists (c :: o), rest, g'. repeat split; try done.
    + rewrite elem_of_cons. intros [?|?]; [congruence | done].
    + by rewrite <- app_assoc.
Qed.

Lemma segmentLoop_lazy (k : jsstring -> option groups) (name acc o rest : jsstring)
    (g' : groups) :
  o <> [] -> d ∉ o -> needsDelimiter d k -> k rest = Some g' ->
  segmentLoop d k name acc (o ++ rest) = Some ((name, acc ++ o) :: g').
Proof.
  intros Ho Hd Hk Hrest. revert acc.
  induction o as [|c o IH]; intros acc; [done|].
  apply not_elem_of_cons in Hd as [Hc Hd]. simpl.
  destruct (N.eqb_spec c d) as [|_]; [congruence|].
  destruct o as [|c' o].
  - simpl. by rewrite Hrest.
  - assert (Hc' : c' <> d).
    { intros ->. apply Hd. by left. }
    simpl app at 1. rewrite (Hk c' _ Hc').
    rewrite IH by done. by rewrite <- app_assoc.
Qed.

Lemma matchParts_segment_inv (name prefix : jsstring) (ps : list part)
    (s : jsstring) (g : groups) :
  matchParts d (Segment name prefix :: ps) s = Some g ->
  exists o rest g',
    s = prefix ++ o ++ rest /\ o <> [] /\ (d ∉ o)
    /\ matchParts d ps rest = Some g' /\ g = (name, o) :: g'.
Proof.
  simpl. destruct (startsWith s prefix) eqn:Hs; [|done].
  intros (o & rest & g' & Hdrop & Ho & Hd & Hrest & ->)%segmentLoop_inv.
  exists o, rest, g'. repeat split; try done.
  rewrite <- Hdrop. by apply startsWith_drop.
Qed.

Lemma matchParts_segment (name prefix : jsstring) (ps : list part)
    (o rest : jsstring) (g' : groups) :
  o <> [] -> d ∉ o -> needsDelimiter d (matchParts d ps) ->
  matchParts d ps rest = Some g' ->
  matchParts d (Segment name prefix :: ps) (prefix ++ o ++ rest) = Some ((name, o) :: g').
Proof.
  intros Ho Hd Hk Hrest. simpl.
  rewrite startsWith_app, drop_app_length.
  by rewrite (segmentLoop_lazy _ name [] o rest g').
Qed.

Lemma needsDelimiter_fixed (text : jsstring) (ps : list part) :
  needsDelimiter d (matchParts d (Fixed (d :: text) :: ps)).
Proof.
  intros c s Hc. simpl. destruct (N.eqb_spec d c); [congruence | done].
Qed.

Lemma needsDelimiter_segment (name prefix : jsstring) (ps : list part) :
  needsDelimiter d (matchParts d (Segment name (d :: prefix) :: ps)).
Proof.
  intros c s Hc. simpl. destruct (N.eqb_spec d c); [congruence | done].
Qed.

Lemma wildcardLoop_end (name acc s : jsstring) :
  wildcardLoop (matchParts d []) name acc s
  = if forallb (fun c => negb (Char.isLineTerminator c)) s
    then Some [(name, acc ++ s)] else None.
Proof.
  revert acc. induction s as [|c s IH]; intros acc; simpl.
  - by rewrite app_nil_r.
  - destruct (Char.isLineTerminator c); simpl; [done|].
    rewrite IH, <- app_assoc. simpl.
    by destruct (forallb _ s).
Qed.

Lemma matchParts_wildcard (name s : jsstring) (g : groups) :
  matchParts d [FullWildcard name] s = Some g <-> singleLine s /\ g = [(name, s)].
Proof.
  simpl. rewrite wildcardLoop_end. unfold singleLine.
  destruct (forallb _ s) eqn:Hs; simpl.
  - rewrite forallb_forall in Hs. split.
    + intros [= <-]. split; [|done]. apply List.Forall_forall.
      intros c Hc. specialize (Hs c Hc). by destruct (Char.isLineTerminator c).
    + by intros [_ ->].
  - split; [done|]. intros [Hall _]. exfalso.
    apply not_true_iff_false in Hs. apply Hs, forallb_forall.
    intros c Hc. rewrite List.Forall_forall in Hall. by rewrite (Hall c Hc).
Qed.
End Parts.

(** The path pattern of the organization-scoped template accepts the
    paths of the form [/organization/_packaging/feed/npm/registry/]. *)
Lemma organization_pathname (path : jsstring) (g : groups) :
  matchParts Char.SLASH (pattern_pathname azureDevOpsOrganizationFeedPattern) path = Some g
  <-> exists organization feed,
        isSegment organization /\ isSegment feed
        /\ path = organizationPath organization feed
        /\ g = [(lit "organization", organization); (lit "feed", feed)].
Proof.
  unfold azureDevOpsOrganizationFeedPattern, pattern_pathname. split.
  - intros (o & r1 & g1 & -> & Ho & Hdo & H1 & ->)%matchParts_segment_inv.
    apply matchParts_fixed in H1 as (r2 & -> & H2).
    apply matchParts_segment_inv in H2 as (f & r3 & g3 & -> & Hf & Hdf & H3 & ->).
    apply matchParts_fixed in H3 as (r4 & -> & H4).
    apply matchParts_nil in H4 as [-> ->].
    exists o, f. by repeat split.
  - intros (o & f & [Ho Hdo] & [Hf Hdf] & -> & ->).
    unfold organizationPath.
    change (lit "/_packaging/" ++ f ++ lit "/npm/registry/")
      with (lit "/_packaging" ++ lit "/" ++ f ++ lit "/npm/registry/").
    apply matchParts_segment;
      [done | done | apply (needsDelimiter_fixed Char.SLASH (lit "_packaging")) |].
    apply matchParts_fixed. eexists. split; [done|].
    replace (lit "/npm/registry/") with (lit "/npm/registry/" ++ []) at 2
      by apply app_nil_r.
    apply matchParts_segment;
      [done | done | apply (needsDelimiter_fixed Char.SLASH (lit "npm/registry/")) |].
    apply matchParts_fixed. by exists [].
Qed.

(** The path pattern of the project-scoped template accepts the paths of
    the form [/organization/project/_packaging/feed/npm/registry/]. *)
Lemma project_pathname (path : jsstring) (g : groups) :
  matchParts Char.SLASH (pattern_pathname azureDevOpsProjectFeedPattern) path = Some g
  <-> exists organization project feed,
        isSegment organization /\ isSegment project /\ isSegment feed
        /\ path = projectPath organization project feed
        /\ g = [(lit "organization", organization); (lit "project", project);
                (lit "feed", feed)].
Proof.
  unfold azureDevOpsProjectFeedPattern, pattern_pathname. split.
  - intros (o & r1 & g1 & -> & Ho & Hdo & H1 & ->)%matchParts_segment_inv.
    apply matchParts_segment_inv in H1 as (p & r2 & g2 & -> & Hp & Hdp & H2 & ->).
    apply matchParts_fixed in H2 as (r3 & -> & H3).
    apply matchParts_segment_inv in H3 as (f & r4 & g4 & -> & Hf & Hdf & H4 & ->).
    apply matchParts_fixed in H4 as (r5 & -> & H5).
    apply matchParts_nil in H5 as [-> ->].
    exists o, p, f. by repeat split.
  - intros (o & p & f & [Ho Hdo] & [Hp Hdp] & [Hf Hdf] & -> & ->).
    unfold projectPath.
    change (lit "/_packaging/" ++ f ++ lit "/npm/registry/")
      with (lit "/_packaging" ++ lit "/" ++ f ++ lit "/npm/registry/").
    apply matchParts_segment;
      [done | done | apply (needsDelimiter_segment Char.SLASH (lit "project") []) |].
    apply matchParts_segment;
      [done | done | apply (needsDelimiter_fixed Char.SLASH (lit "_packaging")) |].
    apply matchParts_fixed. eexists. split; [done|].
    replace (lit "/npm/registry/") with (lit "/npm/registry/" ++ []) at 2
      by apply app_nil_r.
    apply matchParts_segment;
      [done | done | apply (needsDelimiter_fixed Char.SLASH (lit "npm/registry/")) |].
    apply matchParts_fixed. by exists [].
Qed.

Lemma matchParts_literal (d : N) (text s : jsstring) (g : groups) :
  matchParts d [Fixed text] s = Some g <-> s = text /\ g = [].
Proof.
  rewrite matchParts_fixed. split.
  - intros (rest & -> & [-> ->]%matchParts_nil). by rewrite app_nil_r.
  - intros [-> ->]. exists []. by rewrite app_nil_r.
Qed.

Section Matcher.
Variable parseURL : jsstring -> option URL.

(** What [exec] needs of the components other than the path; the two
    patterns agree on them. *)
Lemma exec_inv (p : URLPattern) (input : jsstring) (r : URLPatternResult) :
  pattern_protocol p = [Fixed (lit "https")] ->
  pattern_username p = [FullWildcard (lit "0")] ->
  pattern_password p = [FullWildcard (lit "0")] ->
  pattern_hostname p = [Fixed (lit "pkgs.dev.azure.com")] ->
  pattern_port p = [] ->
  pattern_search p = [FullWildcard (lit "0")] ->
  pattern_hash p = [FullWildcard (lit "0")] ->
  exec parseURL p input = Some r
  <-> exists url,
        parseURL input = Some url /\ feedOrigin url
        /\ matchParts Char.SLASH (pattern_pathname p) (url_pathname url)
           = Some (result_pathname r)
        /\ r = mkURLPatternResult [] [(lit "0", url_username url)]
                 [(lit "0", url_password url)] [] [] (result_pathname r)
                 [(lit "0", tail (url_search url))] [(lit "0", tail (url_hash url))].
Proof.
  intros Hproto Huser Hpass Hhost Hport Hsearch Hhash.
  unfold exec, feedOrigin. rewrite Hproto, Huser, Hpass, Hhost, Hport, Hsearch, Hhash.
  split.
  - destruct (parseURL input) as [url|]; [|done]. cbn -[matchParts lit].
    destruct (matchParts 0 [Fixed (lit "https")] (removelast (url_protocol url)))
      as [g1|] eqn:H1; [|done]. cbn -[matchParts lit].
    destruct (matchParts 0 [FullWildcard (lit "0")] (url_username url))
      as [g2|] eqn:H2; [|done]. cbn -[matchParts lit].
    destruct (matchParts 0 [FullWildcard (lit "0")] (url_password url))
      as [g3|] eqn:H3; [|done]. cbn -[matchParts lit].
    destruct (matchParts 46 [Fixed (lit "pkgs.dev.azure.com")] (url_hostname url))
      as [g4|] eqn:H4; [|done]. cbn -[matchParts lit].
    destruct (matchParts 0 [] (url_port url)) as [g5|] eqn:H5; [|done]. cbn -[matchParts lit].
    destruct (matchParts Char.SLASH (pattern_pathname p) (url_pathname url))
      as [g6|] eqn:H6; [|done]. cbn -[matchParts lit].
    destruct (matchParts 0 [FullWildcard (lit "0")] (tail (url_search url)))
      as [g7|] eqn:H7; [|done]. cbn -[matchParts lit].
    destruct (matchParts 0 [FullWildcard (lit "0")] (tail (url_hash url)))
      as [g8|] eqn:H8; [|done]. cbn -[matchParts lit].
    intros [= <-].
    apply matchParts_literal in H1 as [? ->], H4 as [? ->].
    apply matchParts_wildcard in H2 as [? ->], H3 as [? ->], H7 as [? ->], H8 as [? ->].
    apply matchParts_nil in H5 as [? ->].
    exists url. by repeat split.
  - intros (url & -> & (H1 & H4 & H5 & H2 & H3 & H7 & H8) & H6 & Hr).
    assert (E1 : matchParts 0 [Fixed (lit "https")] (removelast (url_protocol url))
                 = Some []) by by apply matchParts_literal.
    assert (E4 : matchParts 46 [Fixed (lit "pkgs.dev.azure.com")] (url_hostname url)
                 = Some []) by by apply matchParts_literal.
    assert (E5 : matchParts 0 [] (url_port url) = Some []) by by apply matchParts_nil.
    assert (E : forall s, singleLine s ->
                  matchParts 0 [FullWildcard (lit "0")] s = Some [(lit "0", s)])
      by (intros s Hs; by apply matchParts_wildcard).
    cbn -[matchParts lit].
    rewrite E1. cbn -[matchParts lit]. rewrite (E _ H2). cbn -[matchParts lit].
    rewrite (E _ H3). cbn -[matchParts lit]. rewrite E4. cbn -[matchParts lit].
    rewrite E5. cbn -[matchParts lit]. rewrite H6. cbn -[matchParts lit].
    rewrite (E _ H7). cbn -[matchParts lit]. rewrite (E _ H8). cbn -[matchParts lit].
    by rewrite Hr at 2.
Qed.
End Matcher.

Ltac by_compute :=
  match goal with
  | |- ?P => refine (@bool_decide_unpack P _ _); vm_compute; exact I
  end.

Section MatcherSpec.
Variable parseURL : jsstring -> option URL.

Lemma exec_organization (input : jsstring) (r : URLPatternResult) :
  exec parseURL azureDevOpsOrganizationFeedPattern input = Some r ->
  exists url organization feed,
    parseURL input = Some url /\ feedOrigin url
    /\ isSegment organization /\ isSegment feed
    /\ url_pathname url = organizationPath organization feed
    /\ group (lit "organization") (result_pathname r) = Some organization.
Proof.
  intros (url & Hurl & Horigin & Hpath & _)%exec_inv; try done.
  apply organization_pathname in Hpath as (o & f & Ho & Hf & Hp & ->).
  by exists url, o, f.
Qed.

Lemma exec_project (input : jsstring) (r : URLPatternResult) :
  exec parseURL azureDevOpsProjectFeedPattern input = Some r ->
  exists url organization project feed,
    parseURL input = Some url /\ feedOrigin url
    /\ isSegment organization /\ isSegment project /\ isSegment feed
    /\ url_pathname url = projectPath organization project feed
    /\ group (lit "organization") (result_pathname r) = Some organization.
Proof.
  intros (url & Hurl & Horigin & Hpath & _)%exec_inv; try done.
  apply project_pathname in Hpath as (o & p & f & Ho & Hp & Hf & Hpath & ->).
  by exists url, o, p, f.
Qed.

Lemma exec_accepts (p : URLPattern) (input : jsstring) (url : URL) (g : groups) :
  p = azureDevOpsOrganizationFeedPattern \/ p = azureDevOpsProjectFeedPattern ->
  parseURL input = Some url -> feedOrigin url ->
  matchParts Char.SLASH (pattern_pathname p) (url_pathname url) = Some g ->
  test parseURL p input = true.
Proof.
  intros Hp Hurl Horigin Hpath. unfold test.
  set (r := mkURLPatternResult [] [(lit "0", url_username url)]
              [(lit "0", url_password url)] [] [] g
              [(lit "0", tail (url_search url))] [(lit "0", tail (url_hash url))]).
  assert (H : exec parseURL p input = Some r).
  { apply exec_inv; try (by destruct Hp as [-> | ->]). by exists url. }
  by rewrite H.
Qed.

(** The check of lines 42 and 66 accepts the strings that parse to a URL
    of the feed origin with a path of one of the two shapes. *)
Lemma isFeedUrl_iff (input : jsstring) :
  isFeedUrl parseURL input = true
  <-> exists url, parseURL input = Some url /\ feedOrigin url /\ feedPath (url_pathname url).
Proof.
  unfold isFeedUrl, test. split.
  - destruct (exec parseURL azureDevOpsOrganizationFeedPattern input) as [r|] eqn:Ho.
    + intros _. apply exec_organization in Ho
        as (url & o & f & Hurl & Horigin & Hso & Hsf & Hpath & _).
      exists url. split; [done|]. split; [done|]. left. by exists o, f.
    + destruct (exec parseURL azureDevOpsProjectFeedPattern input) as [r|] eqn:Hp; [|done].
      intros _. apply exec_project in Hp
        as (url & o & p & f & Hurl & Horigin & Hso & Hsp & Hsf & Hpath & _).
      exists url. split; [done|]. split; [done|]. right. by exists o, p, f.
  - intros (url & Hurl & Horigin & [(o & f & Ho & Hf & Hpath)|(o & p & f & Ho & Hp & Hf & Hpath)]).
    + assert (H : test parseURL azureDevOpsOrganizationFeedPattern input = true).
      { eapply exec_accepts; [by left | done | done |].
        apply organization_pathname. by exists o, f. }
      unfold test in H. by destruct (exec parseURL azureDevOpsOrganizationFeedPattern input).
    + assert (H : test parseURL azureDevOpsProjectFeedPattern input = true).
      { eapply exec_accepts; [by right | done | done |].
        apply project_pathname. by exists o, p, f. }
      unfold test in H.
      destruct (exec parseURL azureDevOpsProjectFeedPattern input); [|done].
      by rewrite orb_true_r.
Qed.

(** The key prefix of an accepted URL. *)
Lemma isFeedUrl_prefix (input : jsstring) :
  isFeedUrl parseURL input = true ->
  exists url, parseURL input = Some url
              /\ feedPath (url_pathname url)
              /\ globalNpmrcKeyPrefix url = lit "//pkgs.dev.azure.com" ++ url_pathname url.
Proof.
  intros (url & Hurl & (_ & Hhost & _) & Hpath)%isFeedUrl_iff.
  exists url. repeat split; try done.
  unfold globalNpmrcKeyPrefix. by rewrite Hhost.
Qed.
End MatcherSpec.


(** C6, as amended: the Matcher accepts a string exactly when the URL
    parser turns it into a URL of scheme https, host pkgs.dev.azure.com and
    default port whose normalised path has one of the two template shapes,
    whatever its credentials, query and fragment; the organization it
    extracts is the first segment of that path; the project-scoped example
    is accepted by the second pattern and yields [myorg]. *)
Theorem matcher_spec (parseURL : jsstring -> option URL) (input : jsstring) :
  (isFeedUrl parseURL input = true
   <-> exists url, parseURL input = Some url /\ feedOrigin url
                   /\ feedPath (url_pathname url))
  /\ (forall r, exec parseURL azureDevOpsOrganizationFeedPattern input = Some r ->
        exists url organization feed,
          parseURL input = Some url
          /\ isSegment organization /\ isSegment feed
          /\ url_pathname url = organizationPath organization feed
          /\ group (lit "organization") (result_pathname r) = Some organization)
  /\ (forall r, exec parseURL azureDevOpsProjectFeedPattern input = Some r ->
        exists url organization project feed,
          parseURL input = Some url
          /\ isSegment organization /\ isSegment project /\ isSegment feed
          /\ url_pathname url = projectPath organization project feed
          /\ group (lit "organization") (result_pathname r) = Some organization)
  /\ (isFeedUrl Whatwg.newURL projectScopedExample = true
      /\ exec Whatwg.newURL azureDevOpsOrganizationFeedPattern projectScopedExample = None
      /\ exists r, exec Whatwg.newURL azureDevOpsProjectFeedPattern projectScopedExample = Some r
                   /\ group (lit "organization") (result_pathname r) = Some (lit "myorg")).
Proof.
  split; [apply isFeedUrl_iff|]. split; [|split].
  - intros r (url & o & f & ? & ? & ? & ? & ? & ?)%exec_organization. by exists url, o, f.
  - intros r (url & o & p & f & ? & ? & ? & ? & ? & ? & ?)%exec_project.
    by exists url, o, p, f.
  - split; [vm_compute; reflexivity|]. split; [vm_compute; reflexivity|].
    eexists. split; vm_compute; reflexivity.
Qed.



(** Wrong host, scheme that is not https, extra or missing segments,
    missing final solidus, a port that is not the default: all rejected. *)
Example matcher_rejections :
  Forall (fun input => isFeedUrl Whatwg.newURL input = false)
    [lit "https://pkgs.dev.azure.org/myorg/_packaging/myfeed/npm/registry/";
     lit "http://pkgs.dev.azure.com/myorg/_packaging/myfeed/npm/registry/";
     lit "https://pkgs.dev.azure.com/a/b/c/_packaging/myfeed/npm/registry/";
     lit "https://pkgs.dev.azure.com/_packaging/myfeed/npm/registry/";
     lit "https://pkgs.dev.azure.com/myorg/_packaging/myfeed/npm/registry";
     lit "https://pkgs.dev.azure.com:8443/myorg/_packaging/myfeed/npm/registry/";
     lit "https://pkgs.dev.azure.com/myorg/_packaging/myfeed/npm/registry/extra/";
     lit "foo"].
Proof. repeat constructor; vm_compute; reflexivity. Qed.

(** The input is normalised before it is matched: leading white space,
    reverse solidi, the default port written out and a dot segment do not
    prevent acceptance. *)
Example matcher_normalises :
  Forall (fun input => isFeedUrl Whatwg.newURL input = true)
    [lit "  https://pkgs.dev.azure.com/myorg/_packaging/myfeed/npm/registry/";
     lit "https:\\pkgs.dev.azure.com\myorg\_packaging\myfeed\npm\registry/";
     lit "https://pkgs.dev.azure.com:443/myorg/_packaging/myfeed/npm/registry/";
     lit "https://pkgs.dev.azure.com/x/../myorg/_packaging/myfeed/npm/registry/"].
Proof. repeat constructor; vm_compute; reflexivity. Qed.

Example upperCase_accepted :
  Whatwg.parse upperCaseExample
  = Whatwg.Ok (mkURL (lit "https:") [] [] (lit "pkgs.dev.azure.com") []
                 (lit "/myorg/_packaging/myfeed/npm/registry/") [] [])
  /\ isFeedUrl Whatwg.newURL upperCaseExample = true.
Proof. split; vm_compute; reflexivity. Qed.

Example dotSegment_rejected :
  Whatwg.parse dotSegmentExample
  = Whatwg.Ok (mkURL (lit "https:") [] [] (lit "pkgs.dev.azure.com") []
                 (lit "/_packaging/myfeed/npm/registry/") [] [])
  /\ isFeedUrl Whatwg.newURL dotSegmentExample = false.
Proof. split; vm_compute; reflexivity. Qed.

Example dotSegment_conforms : conformsToTemplate dotSegmentExample.
Proof.
  exists (organizationPath (lit "..") (lit "myfeed")). split; [|reflexivity].
  left. exists (lit ".."), (lit "myfeed").
  repeat split; try done; by_compute.
Qed.

(** C6, as stated, fails: the Matcher works on the parsed URL, so it
    accepts a string that is not an instance of a template (upper-case scheme
    and host) and rejects one that is (a dot segment as organization). *)
Lemma matcher_not_textual :
  ~ (forall input, isFeedUrl Whatwg.newURL input = true <-> conformsToTemplate input).
Proof.
  intros H.
  pose proof (proj1 (H upperCaseExample) (proj2 upperCase_accepted)) as (path & _ & Heq).
  discriminate Heq.
Qed.

(** ** Paths of feeds and their keys *)

Lemma split_app_sep_gen (sep : N) (x b : jsstring) :
  split sep (x ++ sep :: b) = split sep x ++ split sep b.
Proof.
  induction x as [|c x IH]; simpl.
  - by rewrite N.eqb_refl.
  - destruct (N.eqb_spec c sep) as [->|_]; [by rewrite IH|].
    rewrite IH. pose proof (split_not_nil sep x).
    by destruct (split sep x).
Qed.

Lemma split_organizationPath (o f t : jsstring) :
  isSegment o -> isSegment f ->
  split Char.SLASH (organizationPath o f ++ t)
  = [[]; o; lit "_packaging"; f; lit "npm"; lit "registry"] ++ split Char.SLASH t.
Proof.
  intros [_ Ho] [_ Hf]. unfold organizationPath. rewrite <- !app_assoc.
  change (lit "/" ++ o ++ lit "/_packaging/" ++ f ++ lit "/npm/registry/" ++ t)
    with ([] ++ Char.SLASH :: o ++ Char.SLASH :: lit "_packaging" ++ Char.SLASH
            :: f ++ Char.SLASH :: lit "npm" ++ Char.SLASH :: lit "registry"
            ++ Char.SLASH :: t).
  rewrite (split_app_sep Char.SLASH []) by apply not_elem_of_nil.
  rewrite (split_app_sep Char.SLASH o) by done.
  rewrite (split_app_sep Char.SLASH (lit "_packaging")) by by_compute.
  rewrite (split_app_sep Char.SLASH f) by done.
  rewrite (split_app_sep Char.SLASH (lit "npm")) by by_compute.
  rewrite (split_app_sep Char.SLASH (lit "registry")) by by_compute.
  done.
Qed.

Lemma split_projectPath (o p f t : jsstring) :
  isSegment o -> isSegment p -> isSegment f ->
  split Char.SLASH (projectPath o p f ++ t)
  = [[]; o; p; lit "_packaging"; f; lit "npm"; lit "registry"] ++ split Char.SLASH t.
Proof.
  intros [_ Ho] [_ Hp] [_ Hf]. unfold projectPath. rewrite <- !app_assoc.
  change (lit "/" ++ o ++ lit "/" ++ p ++ lit "/_packaging/" ++ f ++ lit "/npm/registry/" ++ t)
    with ([] ++ Char.SLASH :: o ++ Char.SLASH :: p ++ Char.SLASH :: lit "_packaging"
            ++ Char.SLASH :: f ++ Char.SLASH :: lit "npm" ++ Char.SLASH :: lit "registry"
            ++ Char.SLASH :: t).
  rewrite (split_app_sep Char.SLASH []) by apply not_elem_of_nil.
  rewrite (split_app_sep Char.SLASH o) by done.
  rewrite (split_app_sep Char.SLASH p) by done.
  rewrite (split_app_sep Char.SLASH (lit "_packaging")) by by_compute.
  rewrite (split_app_sep Char.SLASH f) by done.
  rewrite (split_app_sep Char.SLASH (lit "npm")) by by_compute.
  rewrite (split_app_sep Char.SLASH (lit "registry")) by by_compute.
  done.
Qed.

Lemma split_singleton_nil (sep : N) (t : jsstring) : split sep t = [[]] -> t = [].
Proof. intros H. by rewrite <- (join_split sep t), H. Qed.

(** No path of a feed is a proper prefix of another one. *)
Lemma feedPath_prefix_free (p t : jsstring) :
  feedPath p -> feedPath (p ++ t) -> t = [].
Proof.
  intros Hp Hpt.
  destruct Hp as [(o & f & Ho & Hf & ->)|(o & q & f & Ho & Hq & Hf & ->)];
    destruct Hpt as [(o' & f' & Ho' & Hf' & Heq)|(o' & q' & f' & Ho' & Hq' & Hf' & Heq)];
    apply (f_equal (split Char.SLASH)) in Heq;
    rewrite ?split_organizationPath, ?split_projectPath in Heq by done;
    first [ rewrite <- (app_nil_r (organizationPath o' f')) in Heq;
            rewrite split_organizationPath in Heq by done
          | rewrite <- (app_nil_r (projectPath o' q' f')) in Heq;
            rewrite split_projectPath in Heq by done ];
    pose proof (split_not_nil Char.SLASH t) as Hnil;
    simpl in Heq.
  - injection Heq as _ _ Ht. by apply (split_singleton_nil Char.SLASH).
  - injection Heq as _ _ _ Hbad _. by vm_compute in Hbad.
  - injection Heq as _ _ _ _ _ _ Ht. by destruct (split Char.SLASH t).
  - injection Heq as _ _ _ Ht. by apply (split_singleton_nil Char.SLASH).
Qed.

Lemma subKeyLine_shape (prefix password : jsstring) (k : subKey) :
  subKeyLine prefix password k
  = subKeyPrefix prefix k ++ Char.EQUALS :: subKeyValue password k.
Proof. by destruct k. Qed.

(** A stored line matches at most one of the three sub-keys of a prefix. *)
Lemma matchesKey_exclusive (prefix stored : jsstring) (k j : subKey) :
  matchesKey stored (subKeyPrefix prefix k) = true ->
  matchesKey stored (subKeyPrefix prefix j) = true -> k = j.
Proof.
  unfold matchesKey. intros [r Hk]%startsWith_inv [r' Hj]%startsWith_inv.
  rewrite Hk in Hj. clear Hk.
  destruct k, j; try done; simpl in Hj;
    unfold usernamePrefix, passwordPrefix, emailPrefix in Hj;
    rewrite <- !app_assoc in Hj; apply app_inv_head in Hj;
    vm_compute in Hj; discriminate Hj.
Qed.

Lemma classify_iff (prefix stored : jsstring) (k : subKey) :
  classify prefix stored = Some k <-> matchesKey stored (subKeyPrefix prefix k) = true.
Proof.
  unfold classify. split.
  - destruct (matchesKey stored (usernamePrefix prefix)) eqn:Hu; [by intros [= <-]|].
    destruct (matchesKey stored (passwordPrefix prefix)) eqn:Hp; [by intros [= <-]|].
    destruct (matchesKey stored (emailPrefix prefix)) eqn:He; [by intros [= <-]|done].
  - intros Hk.
    destruct (matchesKey stored (usernamePrefix prefix)) eqn:Hu.
    { f_equal. by apply (matchesKey_exclusive prefix stored). }
    destruct (matchesKey stored (passwordPrefix prefix)) eqn:Hp.
    { f_equal. by apply (matchesKey_exclusive prefix stored). }
    destruct (matchesKey stored (emailPrefix prefix)) eqn:He.
    { f_equal. by apply (matchesKey_exclusive prefix stored). }
    destruct k; simpl in Hk; congruence.
Qed.

Lemma classify_None (prefix stored : jsstring) :
  classify prefix stored = None
  <-> forall k, matchesKey stored (subKeyPrefix prefix k) = false.
Proof.
  split.
  - intros Hnone k. apply not_true_is_false. intros Hk%classify_iff. congruence.
  - intros Hall. destruct (classify prefix stored) as [k|] eqn:Hc; [|done].
    apply classify_iff in Hc. by rewrite Hall in Hc.
Qed.

Lemma hasKey_iff (prefix : jsstring) (k : subKey) (lines : list jsstring) :
  hasKey prefix k lines = true
  <-> exists stored, stored ∈ lines /\ classify prefix stored = Some k.
Proof.
  unfold hasKey. rewrite existsb_exists. split.
  - intros (stored & Hin & Hc). exists stored. split; [by apply list_elem_of_In|].
    by apply bool_decide_eq_true in Hc.
  - intros (stored & Hin & Hc). exists stored. split; [by apply list_elem_of_In|].
    by apply bool_decide_eq_true.
Qed.

(** The key prefix of a feed starts with a solidus. *)
Lemma feedPrefix_head (prefix : jsstring) :
  feedPrefix prefix -> exists rest, prefix = Char.SLASH :: rest.
Proof. intros (path & _ & ->). by eexists. Qed.

Lemma trim_subKeyLine (prefix password : jsstring) (k : subKey) :
  feedPrefix prefix ->
  trim (subKeyLine prefix password k)
  = subKeyPrefix prefix k ++ Char.EQUALS :: trimEnd (subKeyValue password k).
Proof.
  intros [rest ->]%feedPrefix_head. rewrite subKeyLine_shape.
  assert (Hshape : exists a, subKeyPrefix (Char.SLASH :: rest) k = Char.SLASH :: a)
    by (destruct k; by eexists).
  destruct Hshape as [a ->]. simpl app. by apply trim_keeps.
Qed.

(** Two sub-keys of feeds that are prefixes of one string are the same
    sub-key of the same feed. *)
Lemma keys_agree (p q r r' : jsstring) (k j : subKey) :
  feedPrefix p -> feedPrefix q ->
  subKeyPrefix p k ++ r = subKeyPrefix q j ++ r' -> p = q /\ k = j.
Proof.
  intros (path & Hpath & ->) (path' & Hpath' & ->) Heq.
  assert (Hshape : forall x (i : subKey) t,
             subKeyPrefix (lit "//pkgs.dev.azure.com" ++ x) i ++ t
             = lit "//pkgs.dev.azure.com" ++ x ++ subKeyPrefix [] i ++ t).
  { intros x i t. destruct i; simpl;
      unfold usernamePrefix, passwordPrefix, emailPrefix; by rewrite <- !app_assoc. }
  rewrite !Hshape in Heq. apply app_inv_head in Heq.
  assert (Hsame : path = path').
  { apply app_eq_inv in Heq as [(t & Ht & _)|(t & Ht & _)].
    - rewrite Ht in Hpath. apply feedPath_prefix_free in Hpath; [|done].
      subst t. by rewrite app_nil_r in Ht.
    - rewrite Ht in Hpath'. apply feedPath_prefix_free in Hpath'; [|done].
      subst t. by rewrite app_nil_r in Ht. }
  subst path'. split; [done|]. apply app_inv_head in Heq.
  destruct k, j; try done; vm_compute in Heq; discriminate Heq.
Qed.

Lemma classify_subKeyLine (p q password : jsstring) (k j : subKey) :
  feedPrefix p -> feedPrefix q ->
  classify p (subKeyLine q password j) = Some k -> p = q /\ k = j.
Proof.
  intros Hp Hq Hc%classify_iff. unfold matchesKey in Hc.
  rewrite trim_subKeyLine in Hc by done.
  apply startsWith_inv in Hc as [r Hr]. symmetry in Hr.
  by apply keys_agree in Hr.
Qed.

Lemma classify_subKeyLine_self (prefix password : jsstring) (k : subKey) :
  feedPrefix prefix -> classify prefix (subKeyLine prefix password k) = Some k.
Proof.
  intros Hp. apply classify_iff. unfold matchesKey.
  rewrite trim_subKeyLine by done. apply startsWith_app.
Qed.

(** ** Idempotence on the array of lines *)

Lemma fmap_fixed {A} (f : A -> A) (l : list A) :
  (forall x, x ∈ l -> f x = x) -> f <$> l = l.
Proof.
  induction l as [|x l IH]; intros H; simpl; [done|].
  rewrite H by by left. f_equal. apply IH. intros y Hy. apply H. by right.
Qed.

Lemma pushed_elem (prefix password stored : jsstring) (lines : list jsstring) :
  stored ∈ pushed prefix password lines ->
  exists k, stored = subKeyLine prefix password k /\ hasKey prefix k lines = false.
Proof.
  unfold pushed. rewrite !elem_of_app.
  destruct (hasKey prefix Username lines) eqn:Hu, (hasKey prefix Password lines) eqn:Hp,
    (hasKey prefix Email lines) eqn:He;
    rewrite ?list_elem_of_singleton, ?elem_of_nil;
    intros [H|[H|H]]; try done; subst;
    first [by exists Username | by exists Password | by exists Email].
Qed.

Lemma pushed_missing (prefix password : jsstring) (k : subKey) (lines : list jsstring) :
  hasKey prefix k lines = false -> subKeyLine prefix password k ∈ pushed prefix password lines.
Proof.
  intros H. unfold pushed. rewrite !elem_of_app.
  destruct k; simpl; rewrite H; rewrite list_elem_of_singleton; auto.
Qed.

Lemma saturated_fixed (prefix password : jsstring) (lines : list jsstring) :
  saturated prefix password lines -> rewriteFeed prefix password lines = lines.
Proof.
  intros [Hlines Hkeys]. rewrite rewriteFeed_eq.
  unfold pushed. rewrite !Hkeys. simpl. rewrite app_nil_r.
  apply fmap_fixed. intros stored Hin. unfold substitute.
  destruct (classify prefix stored) as [k|] eqn:Hc; [|done].
  symmetry. by apply Hlines.
Qed.

Lemma rewriteFeed_saturated (prefix password : jsstring) (lines : list jsstring) :
  feedPrefix prefix -> saturated prefix password (rewriteFeed prefix password lines).
Proof.
  intros Hp. rewrite rewriteFeed_eq. split.
  - intros stored k [Hin|Hin]%elem_of_app Hc.
    + apply list_elem_of_fmap in Hin as (l & -> & Hl). unfold substitute in *.
      destruct (classify prefix l) as [k'|] eqn:Hl'.
      * rewrite classify_subKeyLine_self in Hc by done. congruence.
      * congruence.
    + apply pushed_elem in Hin as (k' & -> & _).
      rewrite classify_subKeyLine_self in Hc by done. congruence.
  - intros k. apply hasKey_iff. exists (subKeyLine prefix password k).
    split; [|by apply classify_subKeyLine_self].
    apply elem_of_app. destruct (hasKey prefix k lines) eqn:Hk.
    + left. apply hasKey_iff in Hk as (l & Hl & Hc).
      apply list_elem_of_fmap. exists l. split; [|done].
      unfold substitute. by rewrite Hc.
    + right. by apply pushed_missing.
Qed.

Lemma saturated_preserved (p q password : jsstring) (lines : list jsstring) :
  feedPrefix p -> feedPrefix q ->
  saturated p password lines -> saturated p password (rewriteFeed q password lines).
Proof.
  intros Hp Hq [Hlines Hkeys]. rewrite rewriteFeed_eq. split.
  - intros stored k [Hin|Hin]%elem_of_app Hc.
    + apply list_elem_of_fmap in Hin as (l & -> & Hl). unfold substitute in *.
      destruct (classify q l) as [j|] eqn:Hl'.
      * apply classify_subKeyLine in Hc as [-> ->]; done.
      * by apply Hlines.
    + apply pushed_elem in Hin as (j & -> & _).
      apply classify_subKeyLine in Hc as [-> ->]; done.
  - intros k. apply hasKey_iff.
    destruct (proj1 (hasKey_iff p k lines) (Hkeys k)) as (l & Hl & Hc).
    exists l. split; [|done]. apply elem_of_app. left.
    apply list_elem_of_fmap. exists l. split; [|done].
    unfold substitute. destruct (classify q l) as [j|] eqn:Hl'; [|done].
    rewrite (Hlines l k Hl Hc) in Hl' |- *.
    apply classify_subKeyLine in Hl' as [-> ->]; done.
Qed.

Lemma rewritePrefixes_cons (p : jsstring) (prefixes : list jsstring) (password : jsstring)
    (lines : list jsstring) :
  rewritePrefixes (p :: prefixes) password lines
  = rewritePrefixes prefixes password (rewriteFeed p password lines).
Proof. reflexivity. Qed.

Lemma saturated_rewritePrefixes (prefixes : list jsstring) (p password : jsstring)
    (lines : list jsstring) :
  Forall feedPrefix prefixes -> feedPrefix p ->
  saturated p password lines -> saturated p password (rewritePrefixes prefixes password lines).
Proof.
  intros Hps Hp. revert lines.
  induction Hps as [|q prefixes Hq Hps IH]; intros lines Hsat; [done|].
  rewrite rewritePrefixes_cons. apply IH. by apply saturated_preserved.
Qed.

Lemma rewritePrefixes_saturated (prefixes : list jsstring) (password : jsstring)
    (lines : list jsstring) :
  Forall feedPrefix prefixes ->
  Forall (fun p => saturated p password (rewritePrefixes prefixes password lines)) prefixes.
Proof.
  intros Hps. revert lines.
  induction Hps as [|p prefixes Hp Hps IH]; intros lines; constructor;
    rewrite rewritePrefixes_cons.
  - apply saturated_rewritePrefixes; [done | done |]. by apply rewriteFeed_saturated.
  - apply IH.
Qed.

Lemma rewritePrefixes_fixed (prefixes : list jsstring) (password : jsstring)
    (lines : list jsstring) :
  Forall (fun p => saturated p password lines) prefixes ->
  rewritePrefixes prefixes password lines = lines.
Proof.
  induction 1 as [|p prefixes Hp Hps IH]; [done|].
  by rewrite rewritePrefixes_cons, saturated_fixed.
Qed.

(** Running the outer loop on its own result changes nothing. *)
Lemma rewritePrefixes_idempotent (prefixes : list jsstring) (password : jsstring)
    (lines : list jsstring) :
  Forall feedPrefix prefixes ->
  rewritePrefixes prefixes password (rewritePrefixes prefixes password lines)
  = rewritePrefixes prefixes password lines.
Proof.
  intros Hps. by apply rewritePrefixes_fixed, rewritePrefixes_saturated.
Qed.

(** ** From the array of lines to the text of the file *)

Lemma base64Digit_not_LF (n : N) : base64Digit n <> Char.LF.
Proof.
  unfold base64Digit.
  destruct (nth_in_or_default (N.to_nat n) base64Alphabet Char.EQUALS) as [Hin| ->];
    [|done].
  assert (Hall : forallb (fun c => negb (c =? Char.LF)) base64Alphabet = true)
    by (vm_compute; reflexivity).
  rewrite forallb_forall in Hall. specialize (Hall _ Hin).
  intros Heq. rewrite Heq in Hall. done.
Qed.

Lemma base64Encode_no_LF (bytes : list N) : Char.LF ∉ base64Encode bytes.
Proof.
  assert (H : forall n bytes, (length bytes <= n)%nat -> Char.LF ∉ base64Encode bytes).
  { clear bytes. induction n as [|n IH]; intros bytes Hlen.
    - destruct bytes; [apply not_elem_of_nil | simpl in Hlen; lia].
    - destruct bytes as [|a [|b [|c rest]]]; simpl.
      + apply not_elem_of_nil.
      + rewrite !not_elem_of_cons. repeat split; try done;
          try (intros Heq; symmetry in Heq; by apply base64Digit_not_LF in Heq).
        apply not_elem_of_nil.
      + rewrite !not_elem_of_cons. repeat split; try done;
          try (intros Heq; symmetry in Heq; by apply base64Digit_not_LF in Heq).
        apply not_elem_of_nil.
      + rewrite !not_elem_of_cons. repeat split;
          try (intros Heq; symmetry in Heq; by apply base64Digit_not_LF in Heq).
        apply IH. simpl in Hlen. lia. }
  by apply (H (length bytes)).
Qed.

(** The password of line 119 holds no line feed. *)
Lemma btoa_no_LF (token password : jsstring) :
  btoa token = Some password -> Char.LF ∉ password.
Proof.
  unfold btoa. destruct (forallb _ token); [|done].
  intros [= <-]. apply base64Encode_no_LF.
Qed.

Lemma subKeyLine_no_LF (prefix password : jsstring) (k : subKey) :
  Char.LF ∉ prefix -> Char.LF ∉ password -> Char.LF ∉ subKeyLine prefix password k.
Proof.
  intros Hp Hw.
  destruct k; simpl;
    unfold usernameLine, passwordLine, emailLine, usernamePrefix, passwordPrefix, emailPrefix;
    rewrite !elem_of_app; intros [[?|Hl]|Hl]; try done;
    try (revert Hl; by_compute).
  destruct Hl as [Hl|Hl]; [revert Hl; by_compute | done].
Qed.

Lemma rewriteFeed_Forall (holds : jsstring -> Prop) (prefix password : jsstring)
    (lines : list jsstring) :
  Forall holds lines -> (forall k, holds (subKeyLine prefix password k)) ->
  Forall holds (rewriteFeed prefix password lines).
Proof.
  intros Hlines Hkeys. rewrite rewriteFeed_eq. apply Forall_app. split.
  - apply Forall_fmap. eapply List.Forall_impl; [|exact Hlines].
    intros l Hl. simpl. unfold substitute. by destruct (classify prefix l).
  - apply List.Forall_forall. intros l Hl%list_elem_of_In.
    apply pushed_elem in Hl as (k & -> & _). apply Hkeys.
Qed.

Lemma rewritePrefixes_Forall (holds : jsstring -> Prop) (prefixes : list jsstring)
    (password : jsstring) (lines : list jsstring) :
  Forall holds lines ->
  Forall (fun prefix => forall k, holds (subKeyLine prefix password k)) prefixes ->
  Forall holds (rewritePrefixes prefixes password lines).
Proof.
  intros Hlines Hps. revert lines Hlines.
  induction Hps as [|p prefixes Hp Hps IH]; intros lines Hlines; [done|].
  rewrite rewritePrefixes_cons. apply IH. by apply rewriteFeed_Forall.
Qed.

Lemma rewriteFeed_lookup (prefix password : jsstring) (lines : list jsstring)
    (index : nat) (stored : jsstring) :
  lines !! index = Some stored ->
  rewriteFeed prefix password lines !! index = Some (substitute prefix password stored).
Proof.
  intros H. rewrite rewriteFeed_eq, lookup_app_l.
  - by rewrite list_lookup_fmap, H.
  - rewrite length_fmap. by eapply lookup_lt_Some.
Qed.

Lemma rewriteFeed_length (prefix password : jsstring) (lines : list jsstring) :
  (length lines <= length (rewriteFeed prefix password lines))%nat.
Proof. rewrite rewriteFeed_eq, length_app, length_fmap. lia. Qed.

Lemma rewritePrefixes_length (prefixes : list jsstring) (password : jsstring)
    (lines : list jsstring) :
  (length lines <= length (rewritePrefixes prefixes password lines))%nat.
Proof.
  revert lines. induction prefixes as [|p prefixes IH]; intros lines; [done|].
  rewrite rewritePrefixes_cons. etrans; [apply (rewriteFeed_length p password)|apply IH].
Qed.

Section Text.
Variable parseURL : jsstring -> option URL.

(** The platform's parser percent-encodes control characters: the path
    of a URL holds no line feed. *)
Hypothesis pathname_no_LF :
  forall input url, parseURL input = Some url -> Char.LF ∉ url_pathname url.

Lemma keyPrefixOf_feed (feedUrlAsString : jsstring) :
  isFeedUrl parseURL feedUrlAsString = true ->
  exists feedUrl,
    parseURL feedUrlAsString = Some feedUrl
    /\ keyPrefixOf parseURL feedUrlAsString = globalNpmrcKeyPrefix feedUrl
    /\ feedPrefix (keyPrefixOf parseURL feedUrlAsString)
    /\ Char.LF ∉ keyPrefixOf parseURL feedUrlAsString.
Proof.
  intros (url & Hurl & Hpath & Hprefix)%isFeedUrl_prefix.
  exists url. unfold keyPrefixOf. rewrite Hurl. repeat split; try done.
  - exists (url_pathname url). by split.
  - rewrite Hprefix, elem_of_app. intros [Hl|Hl].
    + revert Hl. by_compute.
    + by apply (pathname_no_LF _ _ Hurl).
Qed.

Lemma rewriteFeeds_prefixes (url : list jsstring) (password : jsstring)
    (lines : list jsstring) :
  Forall (fun u => isFeedUrl parseURL u = true) url ->
  rewriteFeeds parseURL url password lines
  = Some (rewritePrefixes (keyPrefixOf parseURL <$> url) password lines).
Proof.
  intros Hurl. revert lines.
  induction Hurl as [|u url Hu Hurl IH]; intros lines; [done|].
  destruct (keyPrefixOf_feed u Hu) as (feedUrl & Hparse & Hkey & _).
  cbn [rewriteFeeds fmap list_fmap]. rewrite Hparse. cbn [mbind option_bind].
  by rewrite IH, rewritePrefixes_cons, Hkey.
Qed.

Lemma feedPrefixes (url : list jsstring) :
  Forall (fun u => isFeedUrl parseURL u = true) url ->
  Forall feedPrefix (keyPrefixOf parseURL <$> url).
Proof.
  intros Hurl. apply Forall_fmap. eapply List.Forall_impl; [|exact Hurl].
  intros u Hu. by destruct (keyPrefixOf_feed u Hu) as (? & ? & ? & ? & ?).
Qed.

(** The text that line 185 writes, and its lines. *)
Lemma configRewriter_lines (url : list jsstring) (password targetText : jsstring) :
  Forall (fun u => isFeedUrl parseURL u = true) url ->
  Char.LF ∉ password ->
  exists text,
    configRewriter parseURL url password targetText = Some text
    /\ split Char.LF text
       = rewritePrefixes (keyPrefixOf parseURL <$> url) password (split Char.LF targetText).
Proof.
  intros Hurl Hpw. unfold configRewriter.
  rewrite rewriteFeeds_prefixes by done. eexists. split; [done|].
  apply split_join.
  - pose proof (rewritePrefixes_length (keyPrefixOf parseURL <$> url) password
                  (split Char.LF targetText)) as Hlen.
    pose proof (split_not_nil Char.LF targetText) as Hnil.
    destruct (split Char.LF targetText); [done|].
    destruct (rewritePrefixes _ _ _); [simpl in Hlen; lia | done].
  - apply rewritePrefixes_Forall; [apply split_no_sep|].
    apply Forall_fmap. eapply List.Forall_impl; [|exact Hurl].
    intros u Hu k. simpl.
    destruct (keyPrefixOf_feed u Hu) as (? & ? & ? & ? & ?).
    by apply subKeyLine_no_LF.
Qed.
End Text.

(** ** The model of the URL parser gives paths without line feeds *)

Lemma hexDigit_not_LF (n : N) : Whatwg.hexDigit n <> Char.LF.
Proof.
  unfold Whatwg.hexDigit.
  destruct (nth_in_or_default (N.to_nat n) (lit "0123456789ABCDEF") 48) as [Hin| ->];
    [|done].
  assert (Hall : forallb (fun c => negb (c =? Char.LF)) (lit "0123456789ABCDEF") = true)
    by (vm_compute; reflexivity).
  rewrite forallb_forall in Hall. specialize (Hall _ Hin).
  intros Heq. rewrite Heq in Hall. done.
Qed.

Lemma percentEncode_path_no_LF (c : N) :
  Char.LF ∉ Whatwg.percentEncode Whatwg.pathSet c.
Proof.
  unfold Whatwg.percentEncode. destruct (Whatwg.pathSet c) eqn:Hset.
  - rewrite !not_elem_of_cons. repeat split; try done;
      try (intros Heq; symmetry in Heq; by apply hexDigit_not_LF in Heq).
    apply not_elem_of_nil.
  - rewrite list_elem_of_singleton. intros <-. by vm_compute in Hset.
Qed.

Lemma Forall_removelast {A} (holds : A -> Prop) (l : list A) :
  Forall holds l -> Forall holds (removelast l).
Proof.
  induction 1 as [|x l Hx Hl IH]; simpl; [done|].
  destruct l; [done|]. by constructor.
Qed.

Lemma finishSegment_no_LF (path : list jsstring) (buffer : jsstring) (atSolidus : bool) :
  Forall (fun segment => Char.LF ∉ segment) path -> Char.LF ∉ buffer ->
  Forall (fun segment => Char.LF ∉ segment) (Whatwg.finishSegment path buffer atSolidus).
Proof.
  intros Hpath Hbuffer. unfold Whatwg.finishSegment.
  assert (Hempty : Forall (fun segment : jsstring => Char.LF ∉ segment) [[]]).
  { repeat constructor. apply not_elem_of_nil. }
  destruct (Whatwg.isDoubleDot buffer); [|destruct (Whatwg.isSingleDot buffer)];
    destruct atSolidus;
    rewrite ?Forall_app; repeat split;
    try done; try (by apply Forall_removelast); by repeat constructor.
Qed.

Lemma pathState_no_LF (s : jsstring) (path : list jsstring) (buffer : jsstring) :
  Forall (fun segment => Char.LF ∉ segment) path -> Char.LF ∉ buffer ->
  Forall (fun segment => Char.LF ∉ segment) (Whatwg.pathState path buffer s).1.
Proof.
  revert path buffer. induction s as [|c s IH]; intros path buffer Hpath Hbuffer; simpl.
  - by apply finishSegment_no_LF.
  - destruct (Whatwg.isSolidus c).
    + apply IH; [by apply finishSegment_no_LF | apply not_elem_of_nil].
    + destruct ((c =? 63) || (c =? 35)); simpl.
      * by apply finishSegment_no_LF.
      * apply IH; [done|]. rewrite elem_of_app. intros [?|?]; [done|].
        by apply (percentEncode_path_no_LF c).
Qed.

Lemma serializePath_no_LF (path : list jsstring) :
  Forall (fun segment => Char.LF ∉ segment) path -> Char.LF ∉ Whatwg.serializePath path.
Proof.
  induction 1 as [|segment path Hs Hp IH]; simpl; [apply not_elem_of_nil|].
  rewrite not_elem_of_cons, elem_of_app. split; [done|]. by intros [?|?].
Qed.

Lemma newURL_pathname_no_LF (input : jsstring) (url : URL) :
  Whatwg.newURL input = Some url -> Char.LF ∉ url_pathname url.
Proof.
  unfold Whatwg.newURL. destruct (Whatwg.parse input) as [u| |] eqn:H; [|done|done].
  intros [= <-]. unfold Whatwg.parse, Whatwg.bind in H.
  repeat match type of H with
         | context [match ?x with _ => _ end] => destruct x eqn:?; try discriminate H
         end;
    injection H as <-; simpl; apply serializePath_no_LF;
    match goal with
    | Hp : Whatwg.pathState [] [] ?rest = (?path, _) |- Forall _ ?path =>
        replace path with (Whatwg.pathState [] [] rest).1 by by rewrite Hp
    end;
    (apply pathState_no_LF; [constructor | apply not_elem_of_nil]).
Qed.

(** ** What the outer loop does to a line, by index *)

Lemma substitute_keeps_match (p q password stored : jsstring) (k : subKey) :
  feedPrefix p -> feedPrefix q ->
  matchesKey stored (subKeyPrefix p k) = true ->
  matchesKey (substitute q password stored) (subKeyPrefix p k) = true.
Proof.
  intros Hp Hq Hm. unfold substitute.
  destruct (classify q stored) as [j|] eqn:Hc; [|done].
  apply classify_iff in Hc. unfold matchesKey in Hm, Hc.
  apply startsWith_inv in Hm as [r Hr], Hc as [r' Hr'].
  rewrite Hr in Hr'. apply keys_agree in Hr' as [-> ->]; [|done|done].
  apply classify_iff. by apply classify_subKeyLine_self.
Qed.

Lemma substitute_own_key (p password stored : jsstring) (k : subKey) :
  matchesKey stored (subKeyPrefix p k) = true ->
  substitute p password stored = subKeyLine p password k.
Proof. intros Hm%classify_iff. unfold substitute. by rewrite Hm. Qed.

Lemma substitute_other_line (p q password : jsstring) (k : subKey) :
  feedPrefix p -> feedPrefix q ->
  substitute q password (subKeyLine p password k) = subKeyLine p password k.
Proof.
  intros Hp Hq. unfold substitute.
  destruct (classify q (subKeyLine p password k)) as [j|] eqn:Hc; [|done].
  by apply classify_subKeyLine in Hc as [-> ->].
Qed.

Lemma rewritePrefixes_lookup_frame (prefixes : list jsstring) (password : jsstring)
    (lines : list jsstring) (index : nat) (stored : jsstring) :
  lines !! index = Some stored ->
  Forall (fun p => classify p stored = None) prefixes ->
  rewritePrefixes prefixes password lines !! index = Some stored.
Proof.
  intros Hl Hps. revert lines Hl.
  induction Hps as [|p prefixes Hp Hps IH]; intros lines Hl; [done|].
  rewrite rewritePrefixes_cons. apply IH.
  rewrite (rewriteFeed_lookup _ _ _ _ stored) by done.
  unfold substitute. by rewrite Hp.
Qed.

Lemma rewritePrefixes_lookup_line (prefixes : list jsstring) (p password : jsstring)
    (k : subKey) (lines : list jsstring) (index : nat) :
  Forall feedPrefix prefixes -> feedPrefix p ->
  lines !! index = Some (subKeyLine p password k) ->
  rewritePrefixes prefixes password lines !! index = Some (subKeyLine p password k).
Proof.
  intros Hps Hp. revert lines.
  induction Hps as [|q prefixes Hq Hps IH]; intros lines Hl; [done|].
  rewrite rewritePrefixes_cons. apply IH.
  rewrite (rewriteFeed_lookup _ _ _ _ _ Hl). by rewrite substitute_other_line.
Qed.

(** A line that matches a sub-key of one of the feeds ends as the line of
    that sub-key. *)
Lemma rewritePrefixes_lookup_key (prefixes : list jsstring) (p password : jsstring)
    (k : subKey) (lines : list jsstring) (index : nat) (stored : jsstring) :
  Forall feedPrefix prefixes -> p ∈ prefixes ->
  lines !! index = Some stored ->
  matchesKey stored (subKeyPrefix p k) = true ->
  rewritePrefixes prefixes password lines !! index = Some (subKeyLine p password k).
Proof.
  intros Hps. revert lines stored.
  induction Hps as [|q prefixes Hq Hps IH]; intros lines stored Hin Hl Hm.
  - by apply elem_of_nil in Hin.
  - rewrite rewritePrefixes_cons.
    pose proof (rewriteFeed_lookup q password _ _ _ Hl) as Hl'.
    destruct (decide (p = q)) as [->|Hne].
    + rewrite (substitute_own_key _ _ _ k) in Hl' by done.
      by apply rewritePrefixes_lookup_line.
    + apply elem_of_cons in Hin as [?|Hin]; [done|].
      assert (Hp : feedPrefix p).
      { rewrite List.Forall_forall in Hps. by apply Hps, list_elem_of_In. }
      eapply IH; [done | exact Hl' |]. by apply substitute_keeps_match.
Qed.

Lemma countMatching_app (key : jsstring) (l1 l2 : list jsstring) :
  countMatching key (l1 ++ l2) = (countMatching key l1 + countMatching key l2)%nat.
Proof. unfold countMatching. by rewrite list.filter_app, length_app. Qed.

Lemma countMatching_fmap (key : jsstring) (f : jsstring -> jsstring) (lines : list jsstring) :
  (forall stored, matchesKey stored key = true -> matchesKey (f stored) key = true) ->
  (countMatching key lines <= countMatching key (f <$> lines))%nat.
Proof.
  intros Hf. unfold countMatching.
  induction lines as [|l lines IH]; [done|].
  rewrite fmap_cons, !filter_cons.
  destruct (decide (matchesKey l key = true)) as [Hl|Hl].
  - rewrite decide_True by by apply Hf. cbn [length]. lia.
  - destruct (decide (matchesKey (f l) key = true)); cbn [length]; lia.
Qed.

Lemma rewritePrefixes_count (prefixes : list jsstring) (p password : jsstring) (k : subKey)
    (lines : list jsstring) :
  Forall feedPrefix prefixes -> feedPrefix p ->
  (countMatching (subKeyPrefix p k) lines
   <= countMatching (subKeyPrefix p k) (rewritePrefixes prefixes password lines))%nat.
Proof.
  intros Hps Hp. revert lines.
  induction Hps as [|q prefixes Hq Hps IH]; intros lines; [done|].
  rewrite rewritePrefixes_cons. etrans; [|apply IH].
  rewrite rewriteFeed_eq, countMatching_app.
  etrans; [apply (countMatching_fmap _ (substitute q password))|lia].
  intros stored. by apply substitute_keeps_match.
Qed.

(** ** The Config Rewriter on the text of the file *)

Example example_inputs :
  isFeedUrl Whatwg.newURL exampleUrl = true
  /\ keyPrefixOf Whatwg.newURL exampleUrl = examplePrefix
  /\ btoa exampleToken = Some examplePassword
  /\ split Char.LF exampleTarget = exampleLines.
Proof. repeat split; vm_compute; reflexivity. Qed.

(** C1, as amended: for the organization-scoped example URL, the token of
    52 letters A and the empty target text, the rewriter writes four lines:
    the empty line that the empty text splits into, then the user name,
    password and email lines of the feed; the text starts with a line
    feed and does not end with one. *)
Theorem configRewriter_empty_target :
  btoa exampleToken = Some examplePassword
  /\ configRewriter Whatwg.newURL [exampleUrl] examplePassword []
     = Some (join [Char.LF]
               [[];
                examplePrefix ++ lit ":username=VssSessionToken";
                examplePrefix ++ lit ":_password=" ++ examplePassword;
                examplePrefix ++ lit ":email=not-used@example.com"]).
Proof. split; vm_compute; reflexivity. Qed.

(** C1, as stated, fails: the text written for the empty target is not
    the three lines alone, with or without a final line feed. *)
Lemma configRewriter_empty_target_not_three_lines :
  ~ (exists text,
        configRewriter Whatwg.newURL [exampleUrl] examplePassword [] = Some text
        /\ (split Char.LF text
            = [examplePrefix ++ lit ":username=VssSessionToken";
               examplePrefix ++ lit ":_password=" ++ examplePassword;
               examplePrefix ++ lit ":email=not-used@example.com"]
            \/ split Char.LF text
               = [examplePrefix ++ lit ":username=VssSessionToken";
                  examplePrefix ++ lit ":_password=" ++ examplePassword;
                  examplePrefix ++ lit ":email=not-used@example.com";
                  []])).
Proof.
  intros (text & Hrun & Hlines).
  vm_compute in Hrun. injection Hrun as <-.
  destruct Hlines as [H|H]; vm_compute in H; discriminate H.
Qed.

(** C2: for valid feed URLs and a password that [btoa] returned, the
    rewriter run on its own output writes that output again. *)
Theorem configRewriter_idempotent (parseURL : jsstring -> option URL)
    (url : list jsstring) (token password targetText : jsstring) :
  (forall input feedUrl, parseURL input = Some feedUrl -> Char.LF ∉ url_pathname feedUrl) ->
  Forall (fun u => isFeedUrl parseURL u = true) url ->
  btoa token = Some password ->
  exists text,
    configRewriter parseURL url password targetText = Some text
    /\ configRewriter parseURL url password text = Some text.
Proof.
  intros Hparse Hurl Hpw%btoa_no_LF.
  destruct (configRewriter_lines parseURL Hparse url password targetText Hurl Hpw)
    as (text & Hrun & Hlines).
  exists text. split; [done|].
  destruct (configRewriter_lines parseURL Hparse url password text Hurl Hpw)
    as (text' & Hrun' & Hlines').
  rewrite Hrun'. f_equal.
  rewrite Hlines, rewritePrefixes_idempotent in Hlines' by by apply feedPrefixes.
  rewrite <- Hlines in Hlines'.
  by rewrite <- (join_split Char.LF text'), Hlines', join_split.
Qed.

Lemma configRewriter_idempotent_witness :
  (forall input feedUrl,
      Whatwg.newURL input = Some feedUrl -> Char.LF ∉ url_pathname feedUrl)
  /\ Forall (fun u => isFeedUrl Whatwg.newURL u = true) [exampleUrl; projectScopedExample]
  /\ btoa exampleToken = Some examplePassword
  /\ exists text,
       configRewriter Whatwg.newURL [exampleUrl; projectScopedExample]
         examplePassword exampleTarget = Some text
       /\ configRewriter Whatwg.newURL [exampleUrl; projectScopedExample]
            examplePassword text = Some text.
Proof.
  assert (Hurl : Forall (fun u => isFeedUrl Whatwg.newURL u = true)
                   [exampleUrl; projectScopedExample])
    by (repeat constructor; vm_compute; reflexivity).
  assert (Hpw : btoa exampleToken = Some examplePassword) by (vm_compute; reflexivity).
  split; [exact newURL_pathname_no_LF|]. split; [exact Hurl|]. split; [exact Hpw|].
  exact (configRewriter_idempotent Whatwg.newURL [exampleUrl; projectScopedExample]
           exampleToken examplePassword exampleTarget newURL_pathname_no_LF Hurl Hpw).
Defined.

(** C3: rewriting one feed.  When every one of the three sub-keys of the
    feed is matched by some line of the target, each matching line is
    replaced in place and the number of lines does not change; when no
    line matches any of the three, the user name, password and email lines
    are appended at the end, in that order. *)
Theorem configRewriter_replace_or_append (parseURL : jsstring -> option URL)
    (feedUrlAsString token password targetText : jsstring) :
  (forall input feedUrl, parseURL input = Some feedUrl -> Char.LF ∉ url_pathname feedUrl) ->
  isFeedUrl parseURL feedUrlAsString = true ->
  btoa token = Some password ->
  exists text,
    configRewriter parseURL [feedUrlAsString] password targetText = Some text
    /\ ((forall k, exists index stored,
            split Char.LF targetText !! index = Some stored
            /\ matchesKey stored (subKeyPrefix (keyPrefixOf parseURL feedUrlAsString) k) = true) ->
        length (split Char.LF text) = length (split Char.LF targetText)
        /\ forall index stored k,
             split Char.LF targetText !! index = Some stored ->
             matchesKey stored (subKeyPrefix (keyPrefixOf parseURL feedUrlAsString) k) = true ->
             split Char.LF text !! index
             = Some (subKeyLine (keyPrefixOf parseURL feedUrlAsString) password k))
    /\ ((forall stored k,
            stored ∈ split Char.LF targetText ->
            matchesKey stored (subKeyPrefix (keyPrefixOf parseURL feedUrlAsString) k) = false) ->
        split Char.LF text
        = split Char.LF targetText
          ++ [usernameLine (keyPrefixOf parseURL feedUrlAsString);
              passwordLine (keyPrefixOf parseURL feedUrlAsString) password;
              emailLine (keyPrefixOf parseURL feedUrlAsString)]).
Proof.
  intros Hparse Hurl Hpw%btoa_no_LF.
  assert (Hurls : Forall (fun u => isFeedUrl parseURL u = true) [feedUrlAsString])
    by by constructor.
  destruct (configRewriter_lines parseURL Hparse _ password targetText Hurls Hpw)
    as (text & Hrun & Hlines).
  exists text. split; [done|].
  rewrite Hlines. cbn [fmap list_fmap]. rewrite rewritePrefixes_cons.
  change (rewritePrefixes [] password ?l) with l.
  set (prefix := keyPrefixOf parseURL feedUrlAsString).
  set (lines := split Char.LF targetText).
  split.
  - intros Hall. split.
    + rewrite rewriteFeed_eq, length_app, length_fmap.
      assert (Hnone : pushed prefix password lines = []); [|by rewrite Hnone; simpl; lia].
      unfold pushed.
      assert (Hk : forall k, hasKey prefix k lines = true).
      { intros k. destruct (Hall k) as (index & stored & Hl & Hm).
        apply hasKey_iff. exists stored. split; [by eapply list_elem_of_lookup_2|].
        by apply classify_iff. }
      by rewrite !Hk.
    + intros index stored k Hl Hm.
      rewrite (rewriteFeed_lookup _ _ _ _ _ Hl). f_equal. by apply substitute_own_key.
  - intros Hnone. rewrite rewriteFeed_eq. f_equal.
    + apply fmap_fixed. intros stored Hin. unfold substitute.
      assert (Hc : classify prefix stored = None); [|by rewrite Hc].
      apply classify_None. intros k. by apply Hnone.
    + unfold pushed.
      assert (Hk : forall k, hasKey prefix k lines = false).
      { intros k. apply not_true_is_false. intros (stored & Hin & Hc)%hasKey_iff.
        apply classify_iff in Hc. by rewrite Hnone in Hc. }
      by rewrite !Hk.
Qed.

Lemma configRewriter_replace_or_append_witness :
  (forall input feedUrl,
      Whatwg.newURL input = Some feedUrl -> Char.LF ∉ url_pathname feedUrl)
  /\ isFeedUrl Whatwg.newURL exampleUrl = true
  /\ btoa exampleToken = Some examplePassword
  /\ exists text,
       configRewriter Whatwg.newURL [exampleUrl] examplePassword exampleTarget = Some text
       /\ length (split Char.LF text) = length (split Char.LF exampleTarget).
Proof.
  assert (Hurl : isFeedUrl Whatwg.newURL exampleUrl = true) by (vm_compute; reflexivity).
  assert (Hpw : btoa exampleToken = Some examplePassword) by (vm_compute; reflexivity).
  split; [exact newURL_pathname_no_LF|]. split; [exact Hurl|]. split; [exact Hpw|].
  destruct (configRewriter_replace_or_append Whatwg.newURL exampleUrl exampleToken
              examplePassword exampleTarget newURL_pathname_no_LF Hurl Hpw)
    as (text & Hrun & Hreplace & _).
  exists text. split; [exact Hrun|]. apply Hreplace.
  intros k. destruct k.
  - exists 2%nat, (lit "  //pkgs.dev.azure.com/myorg/_packaging/myfeed/npm/registry/:username=me  ").
    split; vm_compute; reflexivity.
  - exists 3%nat, (lit "//pkgs.dev.azure.com/myorg/_packaging/myfeed/npm/registry/:_password=b2xk").
    split; vm_compute; reflexivity.
  - exists 5%nat, (lit "//pkgs.dev.azure.com/myorg/_packaging/myfeed/npm/registry/:emailaddress=x").
    split; vm_compute; reflexivity.
Defined.

(** C4: a line of the target whose trimmed content starts with none of
    the three sub-keys of any processed feed is, in the text written, the
    same line at the same index. *)
Theorem configRewriter_frame (parseURL : jsstring -> option URL)
    (url : list jsstring) (token password targetText : jsstring) :
  (forall input feedUrl, parseURL input = Some feedUrl -> Char.LF ∉ url_pathname feedUrl) ->
  Forall (fun u => isFeedUrl parseURL u = true) url ->
  btoa token = Some password ->
  exists text,
    configRewriter parseURL url password targetText = Some text
    /\ forall index stored,
         split Char.LF targetText !! index = Some stored ->
         (forall u k, u ∈ url ->
                      matchesKey stored (subKeyPrefix (keyPrefixOf parseURL u) k) = false) ->
         split Char.LF text !! index = Some stored.
Proof.
  intros Hparse Hurl Hpw%btoa_no_LF.
  destruct (configRewriter_lines parseURL Hparse url password targetText Hurl Hpw)
    as (text & Hrun & Hlines).
  exists text. split; [done|]. intros index stored Hl Hnone.
  rewrite Hlines. apply rewritePrefixes_lookup_frame; [done|].
  apply Forall_fmap, List.Forall_forall. intros u Hu%list_elem_of_In. simpl.
  apply classify_None. intros k. by apply Hnone.
Qed.

Lemma configRewriter_frame_witness :
  (forall input feedUrl,
      Whatwg.newURL input = Some feedUrl -> Char.LF ∉ url_pathname feedUrl)
  /\ Forall (fun u => isFeedUrl Whatwg.newURL u = true) [exampleUrl; projectScopedExample]
  /\ btoa exampleToken = Some examplePassword
  /\ exists text,
       configRewriter Whatwg.newURL [exampleUrl; projectScopedExample]
         examplePassword exampleTarget = Some text
       /\ split Char.LF text !! 1%nat = Some (lit "registry=https://registry.npmjs.org/").
Proof.
  assert (Hurl : Forall (fun u => isFeedUrl Whatwg.newURL u = true)
                   [exampleUrl; projectScopedExample])
    by (repeat constructor; vm_compute; reflexivity).
  assert (Hpw : btoa exampleToken = Some examplePassword) by (vm_compute; reflexivity).
  split; [exact newURL_pathname_no_LF|]. split; [exact Hurl|]. split; [exact Hpw|].
  destruct (configRewriter_frame Whatwg.newURL [exampleUrl; projectScopedExample]
              exampleToken examplePassword exampleTarget newURL_pathname_no_LF Hurl Hpw)
    as (text & Hrun & Hframe).
  exists text. split; [exact Hrun|]. apply Hframe; [vm_compute; reflexivity|].
  intros u k Hu.
  apply elem_of_cons in Hu as [->|Hu]; [|apply list_elem_of_singleton in Hu as ->];
    destruct k; vm_compute; reflexivity.
Defined.

(** C7: every line of the target whose trimmed content starts with a
    sub-key of a processed feed is overwritten with the one line of that
    sub-key, so two such lines end with the same content, and the number of
    lines that match the sub-key does not go down. *)
Theorem configRewriter_duplicates (parseURL : jsstring -> option URL)
    (url : list jsstring) (token password targetText feedUrlAsString : jsstring)
    (k : subKey) :
  (forall input feedUrl, parseURL input = Some feedUrl -> Char.LF ∉ url_pathname feedUrl) ->
  Forall (fun u => isFeedUrl parseURL u = true) url ->
  feedUrlAsString ∈ url ->
  btoa token = Some password ->
  exists text,
    configRewriter parseURL url password targetText = Some text
    /\ (forall index stored,
          split Char.LF targetText !! index = Some stored ->
          matchesKey stored (subKeyPrefix (keyPrefixOf parseURL feedUrlAsString) k) = true ->
          split Char.LF text !! index
          = Some (subKeyLine (keyPrefixOf parseURL feedUrlAsString) password k))
    /\ (countMatching (subKeyPrefix (keyPrefixOf parseURL feedUrlAsString) k)
          (split Char.LF targetText)
        <= countMatching (subKeyPrefix (keyPrefixOf parseURL feedUrlAsString) k)
             (split Char.LF text))%nat.
Proof.
  intros Hparse Hurl Hin Hpw%btoa_no_LF.
  destruct (configRewriter_lines parseURL Hparse url password targetText Hurl Hpw)
    as (text & Hrun & Hlines).
  exists text. split; [done|]. rewrite Hlines.
  pose proof (feedPrefixes parseURL Hparse url Hurl) as Hps.
  assert (Hp : keyPrefixOf parseURL feedUrlAsString ∈ keyPrefixOf parseURL <$> url)
    by by apply list_elem_of_fmap_2.
  split.
  - intros index stored Hl Hm. by eapply rewritePrefixes_lookup_key.
  - apply rewritePrefixes_count; [done|].
    rewrite List.Forall_forall in Hps. by apply Hps, list_elem_of_In.
Qed.

Lemma configRewriter_duplicates_witness :
  (forall input feedUrl,
      Whatwg.newURL input = Some feedUrl -> Char.LF ∉ url_pathname feedUrl)
  /\ Forall (fun u => isFeedUrl Whatwg.newURL u = true) [projectScopedExample; exampleUrl]
  /\ exampleUrl ∈ [projectScopedExample; exampleUrl]
  /\ btoa exampleToken = Some examplePassword
  /\ countMatching (subKeyPrefix (keyPrefixOf Whatwg.newURL exampleUrl) Password)
       (split Char.LF exampleTarget) = 2%nat
  /\ exists text,
       configRewriter Whatwg.newURL [projectScopedExample; exampleUrl]
         examplePassword exampleTarget = Some text
       /\ split Char.LF text !! 3%nat
          = Some (subKeyLine (keyPrefixOf Whatwg.newURL exampleUrl) examplePassword Password)
       /\ split Char.LF text !! 4%nat
          = Some (subKeyLine (keyPrefixOf Whatwg.newURL exampleUrl) examplePassword Password)
       /\ (2 <= countMatching (subKeyPrefix (keyPrefixOf Whatwg.newURL exampleUrl) Password)
                 (split Char.LF text))%nat.
Proof.
  assert (Hurl : Forall (fun u => isFeedUrl Whatwg.newURL u = true)
                   [projectScopedExample; exampleUrl])
    by (repeat constructor; vm_compute; reflexivity).
  assert (Hin : exampleUrl ∈ [projectScopedExample; exampleUrl])
    by (right; left).
  assert (Hpw : btoa exampleToken = Some examplePassword) by (vm_compute; reflexivity).
  assert (Hcount : countMatching (subKeyPrefix (keyPrefixOf Whatwg.newURL exampleUrl) Password)
                     (split Char.LF exampleTarget) = 2%nat)
    by (vm_compute; reflexivity).
  split; [exact newURL_pathname_no_LF|]. split; [exact Hurl|]. split; [exact Hin|].
  split; [exact Hpw|]. split; [exact Hcount|].
  destruct (configRewriter_duplicates Whatwg.newURL [projectScopedExample; exampleUrl]
              exampleToken examplePassword exampleTarget exampleUrl Password
              newURL_pathname_no_LF Hurl Hin Hpw)
    as (text & Hrun & Hover & Hge).
  exists text. split; [exact Hrun|].
  split.
  { apply (Hover 3%nat (examplePrefix ++ lit ":_password=b2xk")); vm_compute; reflexivity. }
  split.
  { apply (Hover 4%nat (examplePrefix ++ lit ":_password=b2xkZXI=")); vm_compute; reflexivity. }
  rewrite Hcount in Hge. exact Hge.
Defined.

(** C9: the match is by prefix.  A line whose trimmed content is a
    sub-key of a processed feed followed by anything is overwritten with
    the line of that sub-key; when what follows the sub-key does not start
    with the equals sign, the line written is another line than the one
    stored, with the sub-key itself as its key. *)
Theorem configRewriter_prefix_match (parseURL : jsstring -> option URL)
    (url : list jsstring) (token password targetText feedUrlAsString : jsstring)
    (k : subKey) (index : nat) (stored extra : jsstring) :
  (forall input feedUrl, parseURL input = Some feedUrl -> Char.LF ∉ url_pathname feedUrl) ->
  Forall (fun u => isFeedUrl parseURL u = true) url ->
  feedUrlAsString ∈ url ->
  btoa token = Some password ->
  split Char.LF targetText !! index = Some stored ->
  trim stored = subKeyPrefix (keyPrefixOf parseURL feedUrlAsString) k ++ extra ->
  exists text,
    configRewriter parseURL url password targetText = Some text
    /\ split Char.LF text !! index
       = Some (subKeyPrefix (keyPrefixOf parseURL feedUrlAsString) k
               ++ Char.EQUALS :: subKeyValue password k)
    /\ (head extra <> Some Char.EQUALS ->
        subKeyPrefix (keyPrefixOf parseURL feedUrlAsString) k
        ++ Char.EQUALS :: subKeyValue password k <> stored).
Proof.
  intros Hparse Hurl Hin Hpw%btoa_no_LF Hl Htrim.
  destruct (configRewriter_lines parseURL Hparse url password targetText Hurl Hpw)
    as (text & Hrun & Hlines).
  exists text. split; [done|]. rewrite Hlines, <- subKeyLine_shape.
  pose proof (feedPrefixes parseURL Hparse url Hurl) as Hps.
  assert (Hp : keyPrefixOf parseURL feedUrlAsString ∈ keyPrefixOf parseURL <$> url)
    by by apply list_elem_of_fmap_2.
  split.
  - eapply rewritePrefixes_lookup_key; [done | done | done |].
    unfold matchesKey. rewrite Htrim. apply startsWith_app.
  - intros Hhead Heq. rewrite <- Heq in Htrim.
    rewrite trim_subKeyLine in Htrim.
    + apply app_inv_head in Htrim. rewrite <- Htrim in Hhead. by apply Hhead.
    + rewrite List.Forall_forall in Hps. by apply Hps, list_elem_of_In.
Qed.

Lemma configRewriter_prefix_match_witness :
  (forall input feedUrl,
      Whatwg.newURL input = Some feedUrl -> Char.LF ∉ url_pathname feedUrl)
  /\ Forall (fun u => isFeedUrl Whatwg.newURL u = true) [exampleUrl]
  /\ exampleUrl ∈ [exampleUrl]
  /\ btoa exampleToken = Some examplePassword
  /\ split Char.LF exampleTarget !! 5%nat = Some (examplePrefix ++ lit ":emailaddress=x")
  /\ trim (examplePrefix ++ lit ":emailaddress=x")
     = subKeyPrefix (keyPrefixOf Whatwg.newURL exampleUrl) Email ++ lit "address=x"
  /\ exists text,
       configRewriter Whatwg.newURL [exampleUrl] examplePassword exampleTarget = Some text
       /\ split Char.LF text !! 5%nat
          = Some (examplePrefix ++ lit ":email=not-used@example.com").
Proof.
  assert (Hurl : Forall (fun u => isFeedUrl Whatwg.newURL u = true) [exampleUrl])
    by (repeat constructor; vm_compute; reflexivity).
  assert (Hin : exampleUrl ∈ [exampleUrl]) by left.
  assert (Hpw : btoa exampleToken = Some examplePassword) by (vm_compute; reflexivity).
  assert (Hl : split Char.LF exampleTarget !! 5%nat
               = Some (examplePrefix ++ lit ":emailaddress=x"))
    by (vm_compute; reflexivity).
  assert (Htrim : trim (examplePrefix ++ lit ":emailaddress=x")
                  = subKeyPrefix (keyPrefixOf Whatwg.newURL exampleUrl) Email
                    ++ lit "address=x")
    by (vm_compute; reflexivity).
  split; [exact newURL_pathname_no_LF|]. split; [exact Hurl|]. split; [exact Hin|].
  split; [exact Hpw|]. split; [exact Hl|]. split; [exact Htrim|].
  destruct (configRewriter_prefix_match Whatwg.newURL [exampleUrl] exampleToken
              examplePassword exampleTarget exampleUrl Email 5%nat
              (examplePrefix ++ lit ":emailaddress=x") (lit "address=x")
              newURL_pathname_no_LF Hurl Hin Hpw Hl Htrim)
    as (text & Hrun & Hline & _).
  exists text. split; [exact Hrun|]. exact Hline.
Defined.

(** ** Runs of [main] *)

Lemma bind_unfold {A B} (m : M A) (k : A -> M B) (w : World) :
  (m ≫= k) w = match m w with
                | (inl x, w') => k x w'
                | (inr o, w') => (inr o, w')
                end.
Proof. reflexivity. Qed.

Lemma forEach_pass {A} (f : A -> M unit) (l : list A) (w : World) :
  Forall (fun x => f x w = (inl tt, w)) l -> forEach l f w = (inl tt, w).
Proof.
  induction 1 as [|x l Hx Hl IH]; [done|].
  cbn [forEach]. by rewrite bind_unfold, Hx.
Qed.

Lemma forEach_stop {A} (f : A -> M unit) (before after : list A) (x : A) (w : World)
    (o : outcome) (w' : World) :
  Forall (fun x => f x w = (inl tt, w)) before ->
  f x w = (inr o, w') ->
  forEach (before ++ x :: after) f w = (inr o, w').
Proof.
  induction 1 as [|y l Hy Hl IH]; intros Hx.
  - cbn [app forEach]. by rewrite bind_unfold, Hx.
  - cbn [app forEach]. rewrite bind_unfold, Hy. by apply IH.
Qed.

Section Runs.
Variable parseURL : jsstring -> option URL.
Variable unicodeUpper : N -> N.
Variables red green cyan bold : jsstring -> jsstring.
Variable untildify : jsstring -> jsstring.
Variable dirname : jsstring -> jsstring.
Variable iniEntries : jsstring -> list (jsstring * jsstring).

(** The first URL of the command line that is not a feed URL ends the
    run with status 1, after one line on standard output. *)
Lemma run_invalid_url (pat : option jsstring) (before after : list jsstring)
    (value npmrc target : jsstring) (w : World) :
  truthy pat = false \/ isPat unicodeUpper (default [] pat) = true ->
  Forall (fun u => isFeedUrl parseURL u = true) before ->
  isFeedUrl parseURL value = false ->
  run parseURL unicodeUpper red green cyan bold untildify dirname iniEntries
    (mkOptions pat (Some (before ++ value :: after)) npmrc target) w
  = (Exited 1, emit (ConsoleLog (red (invalidUrlMessage value))) w).
Proof.
  intros Hpat Hbefore Hvalue. unfold run, main.
  cbn [opt_pat opt_url opt_npmrc opt_target default id].
  rewrite bind_unfold.
  assert (Hfirst : (if truthy pat
                    then if negb (isPat unicodeUpper (default [] pat))
                         then consoleError (red patMessage) ;; processExit 1
                         else mret tt
                    else mret tt) w = (inl tt, w)).
  { destruct Hpat as [-> | Hp]; [done|]. rewrite Hp. by destruct (truthy pat). }
  rewrite Hfirst. rewrite bind_unfold.
  erewrite forEach_stop; [done | |].
  - eapply List.Forall_impl; [|exact Hbefore]. intros u Hu. simpl. by rewrite Hu.
  - simpl. by rewrite Hvalue.
Qed.
End Runs.

(** C8, on the code: a value of [--url] that is no feed URL ends the run
    with status 1 and a message that quotes the value and the expected
    template, but the message goes to standard output ([console.log] at
    line 44) and nothing is written on standard error. *)
Theorem run_invalid_url_foo (unicodeUpper : N -> N)
    (red green cyan bold untildify dirname : jsstring -> jsstring)
    (iniEntries : jsstring -> list (jsstring * jsstring))
    (npmrc target : jsstring) (w : World) :
  Whatwg.parse (lit "foo") = Whatwg.Failure
  /\ exists w',
       run Whatwg.newURL unicodeUpper red green cyan bold untildify dirname iniEntries
         (mkOptions None (Some [lit "foo"]) npmrc target) w = (Exited 1, w')
       /\ standardOutput (events w')
          = standardOutput (events w)
            ++ [red (quoted (lit "foo")
                     ++ lit " is not a valid Azure DevOps NPM feed URL. Expected "
                     ++ quoted expectedTemplate)]
       /\ standardError (events w') = standardError (events w).
Proof.
  split; [vm_compute; reflexivity|].
  eexists. split.
  - apply (run_invalid_url Whatwg.newURL unicodeUpper red green cyan bold untildify dirname
             iniEntries None [] [] (lit "foo") npmrc target w);
      [by left | constructor | vm_compute; reflexivity].
  - unfold standardOutput, standardError, emit. cbn [events].
    rewrite !omap_app. cbn [omap]. split; [done|]. by rewrite app_nil_r.
Qed.

(** ** The events of a run *)

Section Logs.
Variable ok : event -> Prop.

Lemma logs_ret {A} (x : A) : logs ok (mret x).
Proof. intros w. exists []. by rewrite app_nil_r. Qed.

Lemma logs_bind {A B} (m : M A) (k : A -> M B) :
  logs ok m -> (forall x, logs ok (k x)) -> logs ok (m ≫= k).
Proof.
  intros Hm Hk w. rewrite bind_unfold.
  destruct (Hm w) as (n1 & E1 & F1). destruct (m w) as [[x|o] w1]; simpl in *.
  - destruct (Hk x w1) as (n2 & E2 & F2). exists (n1 ++ n2).
    rewrite E2, E1, app_assoc. split; [done|]. by apply Forall_app.
  - by exists n1.
Qed.

Lemma logs_processExit {A} (code : N) : logs ok (@processExit A code).
Proof. intros w. exists []. by rewrite app_nil_r. Qed.

Lemma logs_orThrow {A} (r : option A) : logs ok (orThrow r).
Proof. intros w. exists []. rewrite app_nil_r. by destruct r. Qed.

Lemma logs_consoleLog (text : jsstring) : ok (ConsoleLog text) -> logs ok (consoleLog text).
Proof. intros H w. exists [ConsoleLog text]. split; [done|]. by constructor. Qed.

Lemma logs_consoleError (text : jsstring) :
  ok (ConsoleError text) -> logs ok (consoleError text).
Proof. intros H w. exists [ConsoleError text]. split; [done|]. by constructor. Qed.

Lemma logs_existsSync (path : jsstring) : ok (ExistsSync path) -> logs ok (existsSync path).
Proof. intros H w. exists [ExistsSync path]. split; [done|]. by constructor. Qed.

Lemma logs_readFileSync (path : jsstring) :
  ok (ReadFileSync path) -> logs ok (readFileSync path).
Proof.
  intros H w. exists [ReadFileSync path]. unfold readFileSync.
  destruct (files w path); (split; [done|]); by constructor.
Qed.

Lemma logs_mkdirSync (path : jsstring) : ok (MkdirSync path) -> logs ok (mkdirSync path).
Proof. intros H w. exists [MkdirSync path]. split; [done|]. by constructor. Qed.

Lemma logs_writeFileSync (path data : jsstring) :
  ok (WriteFileSync path data) -> logs ok (writeFileSync path data).
Proof. intros H w. exists [WriteFileSync path data]. split; [done|]. by constructor. Qed.

Lemma logs_prompt (validate : jsstring -> jsstring + unit) :
  (forall message, ok (PromptRejected message)) -> logs ok (prompt validate).
Proof.
  intros H w. unfold prompt.
  assert (Hloop : forall pending w0,
             exists new, events (promptWith validate pending w0).2 = events w0 ++ new
                         /\ Forall ok new).
  { induction pending as [|input rest IH]; intros w0; simpl.
    - exists []. by rewrite app_nil_r.
    - destruct (validate input) as [message|_]; simpl.
      + destruct (IH (emit (PromptRejected message) w0)) as (new & E & F).
        exists (PromptRejected message :: new). rewrite E. simpl.
        rewrite <- app_assoc. split; [done|]. by constructor.
      + exists []. by rewrite app_nil_r. }
  apply Hloop.
Qed.

Lemma logs_forEach {A} (l : list A) (f : A -> M unit) :
  (forall x, logs ok (f x)) -> logs ok (forEach l f).
Proof.
  intros Hf. induction l as [|x l IH]; simpl; [apply logs_ret|].
  apply logs_bind; [apply Hf | by intros _].
Qed.
End Logs.

Ltac logs_step :=
  match goal with
  | |- logs _ (_ ≫= _) => apply logs_bind; [|intros ?]
  | |- logs _ (mret _) => apply logs_ret
  | |- logs _ (processExit _) => apply logs_processExit
  | |- logs _ (orThrow _) => apply logs_orThrow
  | |- logs _ (consoleLog _) => apply logs_consoleLog; intros ? [=]
  | |- logs _ (consoleError _) => apply logs_consoleError; intros ? [=]
  | |- logs _ (prompt _) => apply logs_prompt; intros ? ? [=]
  | |- logs _ (existsSync _) => apply logs_existsSync; intros ? [= <-]; auto
  | |- logs _ (readFileSync _) => apply logs_readFileSync; intros ? [= <-]; auto
  | |- logs _ (mkdirSync _) => apply logs_mkdirSync; intros ? [= <-]; auto
  | |- logs _ (writeFileSync _ _) => apply logs_writeFileSync; intros ? [= <-]; auto
  | |- logs _ (forEach _ _) => apply logs_forEach; intros ?
  | |- logs _ (if ?b then _ else _) => destruct b
  | |- logs _ (match ?x with _ => _ end) => destruct x
  end.

(** ** Runs in worlds that differ at one path *)

Section Respects.
Variable path : jsstring.

Lemma respects_ret {A} (x : A) : respects path (mret x).
Proof. by intros w w' H. Qed.

Lemma respects_bind {A B} (m : M A) (k : A -> M B) :
  respects path m -> (forall x, respects path (k x)) -> respects path (m ≫= k).
Proof.
  intros Hm Hk w w' H. rewrite !bind_unfold.
  destruct (Hm w w' H) as [E1 H1].
  destruct (m w) as [[x|o] w1], (m w') as [[x'|o'] w1']; simpl in *; try done.
  - injection E1 as <-. by apply Hk.
  - by injection E1 as <-.
Qed.

Lemma respects_processExit {A} (code : N) : respects path (@processExit A code).
Proof. by intros w w' H. Qed.

Lemma respects_orThrow {A} (r : option A) : respects path (orThrow r).
Proof. intros w w' H. by destruct r. Qed.

Lemma agreeOff_emit (e : event) (w w' : World) :
  agreeOff path w w' -> agreeOff path (emit e w) (emit e w').
Proof.
  intros (Hf & Hd & Ha & He). repeat split; try done. simpl. by rewrite He.
Qed.

Lemma respects_consoleLog (text : jsstring) : respects path (consoleLog text).
Proof. intros w w' H. split; [done|]. by apply agreeOff_emit. Qed.

Lemma respects_consoleError (text : jsstring) : respects path (consoleError text).
Proof. intros w w' H. split; [done|]. by apply agreeOff_emit. Qed.

Lemma respects_existsSync (q : jsstring) : q <> path -> respects path (existsSync q).
Proof.
  intros Hq w w' H. split; [|by apply agreeOff_emit].
  destruct H as (Hf & Hd & _). simpl. by rewrite (Hf q Hq), Hd.
Qed.

Lemma respects_readFileSync (q : jsstring) : q <> path -> respects path (readFileSync q).
Proof.
  intros Hq w w' H. unfold readFileSync.
  rewrite (proj1 H q Hq). destruct (files w' q); (split; [done|]); by apply agreeOff_emit.
Qed.

Lemma respects_mkdirSync (q : jsstring) : respects path (mkdirSync q).
Proof.
  intros w w' H. split; [done|]. unfold mkdirSync. simpl. apply agreeOff_emit.
  destruct H as (Hf & Hd & Ha & He). repeat split; try done.
  intros r. simpl. by rewrite Hd.
Qed.

Lemma respects_writeFileSync (q data : jsstring) : respects path (writeFileSync q data).
Proof.
  intros w w' H. split; [done|]. unfold writeFileSync. simpl. apply agreeOff_emit.
  destruct H as (Hf & Hd & Ha & He). repeat split; try done.
  intros r Hr. simpl. destruct (strictEquals r q); [done | by apply Hf].
Qed.

Lemma respects_prompt (validate : jsstring -> jsstring + unit) :
  respects path (prompt validate).
Proof.
  intros w w' H. unfold prompt.
  assert (Ha : answers w = answers w') by apply H. rewrite <- Ha.
  generalize (answers w). clear Ha. intros pending. revert w w' H.
  induction pending as [|input rest IH]; intros w w' H; simpl.
  - split; [done|]. destruct H as (Hf & Hd & Ha & He). by repeat split.
  - destruct (validate input) as [message|_].
    + by apply IH, agreeOff_emit.
    + split; [done|]. destruct H as (Hf & Hd & Ha & He). by repeat split.
Qed.

Lemma respects_forEach {A} (l : list A) (f : A -> M unit) :
  (forall x, respects path (f x)) -> respects path (forEach l f).
Proof.
  intros Hf. induction l as [|x l IH]; simpl; [apply respects_ret|].
  apply respects_bind; [apply Hf | by intros _].
Qed.
End Respects.

Ltac respects_step :=
  match goal with
  | |- respects _ (_ ≫= _) => apply respects_bind; [|intros ?]
  | |- respects _ (mret _) => apply respects_ret
  | |- respects _ (processExit _) => apply respects_processExit
  | |- respects _ (orThrow _) => apply respects_orThrow
  | |- respects _ (consoleLog _) => apply respects_consoleLog
  | |- respects _ (consoleError _) => apply respects_consoleError
  | |- respects _ (prompt _) => apply respects_prompt
  | |- respects _ (existsSync _) => apply respects_existsSync; congruence
  | |- respects _ (readFileSync _) => apply respects_readFileSync; congruence
  | |- respects _ (mkdirSync _) => apply respects_mkdirSync
  | |- respects _ (writeFileSync _ _) => apply respects_writeFileSync
  | |- respects _ (forEach _ _) => apply respects_forEach; intros ?
  | |- respects _ (if ?b then _ else _) => destruct b
  | |- respects _ (match ?x with _ => _ end) => destruct x
  end.

(** C10: with at least one URL on the command line, the run does not
    depend on the path given by [--npmrc]; every file system access it
    makes is on the target path or on its directory, so the project-level
    file is neither tested for existence nor read; and, when that file is
    neither the target nor its directory, the run ends the same way, with
    the same events and the same other files, whether or not the
    project-level file exists and whatever it holds. *)
Theorem run_with_url_ignores_npmrc (parseURL : jsstring -> option URL)
    (unicodeUpper : N -> N)
    (red green cyan bold untildify dirname : jsstring -> jsstring)
    (iniEntries : jsstring -> list (jsstring * jsstring))
    (pat : option jsstring) (url : list jsstring) (npmrc npmrc' target : jsstring)
    (w : World) :
  url <> [] ->
  Forall (fun u => isFeedUrl parseURL u = true) url ->
  run parseURL unicodeUpper red green cyan bold untildify dirname iniEntries
    (mkOptions pat (Some url) npmrc target) w
  = run parseURL unicodeUpper red green cyan bold untildify dirname iniEntries
      (mkOptions pat (Some url) npmrc' target) w
  /\ (exists new,
        events (run parseURL unicodeUpper red green cyan bold untildify dirname iniEntries
                  (mkOptions pat (Some url) npmrc target) w).2
        = events w ++ new
        /\ Forall (fun e => forall path, accessedPath e = Some path ->
                            path = untildify target \/ path = dirname (untildify target))
             new)
  /\ (forall w',
        untildify target <> untildify npmrc ->
        dirname (untildify target) <> untildify npmrc ->
        agreeOff (untildify npmrc) w w' ->
        (run parseURL unicodeUpper red green cyan bold untildify dirname iniEntries
           (mkOptions pat (Some url) npmrc target) w).1
        = (run parseURL unicodeUpper red green cyan bold untildify dirname iniEntries
             (mkOptions pat (Some url) npmrc target) w').1
        /\ agreeOff (untildify npmrc)
             (run parseURL unicodeUpper red green cyan bold untildify dirname iniEntries
                (mkOptions pat (Some url) npmrc target) w).2
             (run parseURL unicodeUpper red green cyan bold untildify dirname iniEntries
                (mkOptions pat (Some url) npmrc target) w').2).
Proof.
  intros Hurl _. destruct url as [|u url]; [done|]. split; [reflexivity|]. split.
  - assert (Hlogs : logs (fun e => forall path, accessedPath e = Some path ->
                                     path = untildify target
                                     \/ path = dirname (untildify target))
                      (main parseURL unicodeUpper red green cyan bold untildify dirname
                         iniEntries (mkOptions pat (Some (u :: url)) npmrc target))).
    { unfold main. cbn [opt_pat opt_url opt_npmrc opt_target default id length Nat.eqb].
      repeat logs_step. }
    destruct (Hlogs w) as (new & E & F). exists new. split; [|done].
    unfold run. by destruct (main _ _ _ _ _ _ _ _ _ _ w) as [[?|?] ?].
  - intros w' Htarget Hdir Hagree.
    assert (Hres : respects (untildify npmrc)
                     (main parseURL unicodeUpper red green cyan bold untildify dirname
                        iniEntries (mkOptions pat (Some (u :: url)) npmrc target))).
    { unfold main. cbn [opt_pat opt_url opt_npmrc opt_target default id length Nat.eqb].
      repeat respects_step. }
    destruct (Hres w w' Hagree) as [E H]. unfold run.
    destruct (main _ _ _ _ _ _ _ _ _ _ w) as [[?|?] ?],
      (main _ _ _ _ _ _ _ _ _ _ w') as [[?|?] ?]; simpl in *; try done.
    by injection E as <-.
Qed.

Lemma run_with_url_ignores_npmrc_witness :
  [exampleUrl] <> []
  /\ Forall (fun u => isFeedUrl Whatwg.newURL u = true) [exampleUrl]
  /\ exampleRun (lit "./.npmrc") = exampleRun (lit "/no/such/file")
  /\ exists new,
       events (exampleRun (lit "./.npmrc")).2 = events emptyWorld ++ new
       /\ Forall (fun e => forall path, accessedPath e = Some path ->
                           path = lit "/home/me/.npmrc" \/ path = lit "/home/me")
            new.
Proof.
  assert (Hne : [exampleUrl] <> []) by discriminate.
  assert (Hurl : Forall (fun u => isFeedUrl Whatwg.newURL u = true) [exampleUrl])
    by (repeat constructor; vm_compute; reflexivity).
  split; [exact Hne|]. split; [exact Hurl|].
  destruct (run_with_url_ignores_npmrc Whatwg.newURL id id id id id id
              (fun _ => lit "/home/me") (fun _ => [])
              (Some exampleToken) [exampleUrl] (lit "./.npmrc") (lit "/no/such/file")
              (lit "/home/me/.npmrc") emptyWorld Hne Hurl)
    as (Hsame & Hevents & _).
  split; [exact Hsame | exact Hevents].
Defined.

(** The whole run of the example: the project-level file does not exist,
    the target is created, and the process ends with status 0. *)
Example exampleRun_result :
  (exampleRun (lit "./.npmrc")).1 = Exited 0
  /\ events (exampleRun (lit "./.npmrc")).2
     = [ExistsSync (lit "/home/me/.npmrc");
        ExistsSync (lit "/home/me");
        MkdirSync (lit "/home/me");
        WriteFileSync (lit "/home/me/.npmrc") [];
        ReadFileSync (lit "/home/me/.npmrc");
        WriteFileSync (lit "/home/me/.npmrc")
          (join [Char.LF]
             [[];
              examplePrefix ++ lit ":username=VssSessionToken";
              examplePrefix ++ lit ":_password=" ++ examplePassword;
              examplePrefix ++ lit ":email=not-used@example.com"]);
        ConsoleLog (lit "Authentication successful.")]
  /\ files (exampleRun (lit "./.npmrc")).2 (lit "./.npmrc") = None.
Proof. repeat split; vm_compute; reflexivity. Qed.

(** * Further properties *)

(** ** The two phases *)

Lemma main_phases (parseURL : jsstring -> option URL) (unicodeUpper : N -> N)
    (red green cyan bold untildify dirname : jsstring -> jsstring)
    (iniEntries : jsstring -> list (jsstring * jsstring)) (options : Options) (w : World) :
  main parseURL unicodeUpper red green cyan bold untildify dirname iniEntries options w
  = (resolveInputs parseURL unicodeUpper red green cyan untildify iniEntries options
     ≫= fun inputs =>
          writeCredentials parseURL green bold dirname (untildify (opt_target options))
            inputs.1 inputs.2) w.
Proof.
  unfold main, resolveInputs, writeCredentials.
  repeat (rewrite !bind_unfold;
          match goal with
          | |- context [match ?m w with _ => _ end] => destruct (m w) as [[?|?] ?]
          | |- context [match ?m ?w0 with _ => _ end] =>
              is_var w0; destruct (m w0) as [[?|?] ?]
          end; try reflexivity).
Qed.

(** ** More on the Config Rewriter *)

Lemma keyPrefixOf_valid (parseURL : jsstring -> option URL) (feedUrlAsString : jsstring) :
  isFeedUrl parseURL feedUrlAsString = true ->
  exists feedUrl,
    parseURL feedUrlAsString = Some feedUrl
    /\ keyPrefixOf parseURL feedUrlAsString = globalNpmrcKeyPrefix feedUrl
    /\ feedPrefix (keyPrefixOf parseURL feedUrlAsString).
Proof.
  intros (url & Hurl & Hpath & Hprefix)%isFeedUrl_prefix.
  exists url. unfold keyPrefixOf. rewrite Hurl. repeat split; try done.
  exists (url_pathname url). by split.
Qed.

Lemma rewriteFeeds_valid (parseURL : jsstring -> option URL) (url : list jsstring)
    (password : jsstring) (lines : list jsstring) :
  Forall (fun u => isFeedUrl parseURL u = true) url ->
  rewriteFeeds parseURL url password lines
  = Some (rewritePrefixes (keyPrefixOf parseURL <$> url) password lines).
Proof.
  intros Hurl. revert lines.
  induction Hurl as [|u url Hu Hurl IH]; intros lines; [done|].
  destruct (keyPrefixOf_valid parseURL u Hu) as (feedUrl & Hparse & Hkey & _).
  cbn [rewriteFeeds fmap list_fmap]. rewrite Hparse. cbn [mbind option_bind].
  by rewrite IH, rewritePrefixes_cons, Hkey.
Qed.

Lemma feedPrefixes_valid (parseURL : jsstring -> option URL) (url : list jsstring) :
  Forall (fun u => isFeedUrl parseURL u = true) url ->
  Forall feedPrefix (keyPrefixOf parseURL <$> url).
Proof.
  intros Hurl. apply Forall_fmap. eapply List.Forall_impl; [|exact Hurl].
  intros u Hu. by destruct (keyPrefixOf_valid parseURL u Hu) as (? & ? & ? & ?).
Qed.

Lemma configRewriter_valid (parseURL : jsstring -> option URL) (url : list jsstring)
    (password targetText : jsstring) :
  Forall (fun u => isFeedUrl parseURL u = true) url ->
  configRewriter parseURL url password targetText
  = Some (join [Char.LF]
            (rewritePrefixes (keyPrefixOf parseURL <$> url) password
               (split Char.LF targetText))).
Proof. intros Hurl. unfold configRewriter. by rewrite rewriteFeeds_valid. Qed.

Lemma rewritePrefixes_app (ps qs : list jsstring) (password : jsstring)
    (lines : list jsstring) :
  rewritePrefixes (ps ++ qs) password lines
  = rewritePrefixes qs password (rewritePrefixes ps password lines).
Proof. unfold rewritePrefixes. by rewrite foldl_app. Qed.

Lemma pushed_length (prefix password : jsstring) (lines : list jsstring) :
  (length (pushed prefix password lines) <= 3)%nat.
Proof.
  unfold pushed.
  destruct (hasKey prefix Username lines), (hasKey prefix Password lines),
    (hasKey prefix Email lines); simpl; lia.
Qed.

Lemma rewritePrefixes_length_upper (prefixes : list jsstring) (password : jsstring)
    (lines : list jsstring) :
  (length (rewritePrefixes prefixes password lines)
   <= length lines + 3 * length prefixes)%nat.
Proof.
  revert lines. induction prefixes as [|p prefixes IH]; intros lines.
  - simpl. lia.
  - rewrite rewritePrefixes_cons. etrans; [apply IH|].
    rewrite rewriteFeed_eq, length_app, length_fmap.
    pose proof (pushed_length p password lines). simpl. lia.
Qed.

(** X1: the text written has at least as many lines as the target and at
    most three more per feed URL. *)
Theorem configRewriter_line_count (parseURL : jsstring -> option URL)
    (url : list jsstring) (token password targetText : jsstring) :
  (forall input feedUrl, parseURL input = Some feedUrl -> Char.LF ∉ url_pathname feedUrl) ->
  Forall (fun u => isFeedUrl parseURL u = true) url ->
  btoa token = Some password ->
  exists text,
    configRewriter parseURL url password targetText = Some text
    /\ (length (split Char.LF targetText) <= length (split Char.LF text))%nat
    /\ (length (split Char.LF text)
        <= length (split Char.LF targetText) + 3 * length url)%nat.
Proof.
  intros Hparse Hurl Hpw%btoa_no_LF.
  destruct (configRewriter_lines parseURL Hparse url password targetText Hurl Hpw)
    as (text & Hrun & Hlines).
  exists text. split; [done|]. rewrite Hlines. split.
  - apply rewritePrefixes_length.
  - etrans; [apply rewritePrefixes_length_upper|]. by rewrite length_fmap.
Qed.

Lemma configRewriter_line_count_witness :
  (forall input feedUrl,
      Whatwg.newURL input = Some feedUrl -> Char.LF ∉ url_pathname feedUrl)
  /\ Forall (fun u => isFeedUrl Whatwg.newURL u = true) [exampleUrl; projectScopedExample]
  /\ btoa exampleToken = Some examplePassword
  /\ exists text,
       configRewriter Whatwg.newURL [exampleUrl; projectScopedExample]
         examplePassword exampleTarget = Some text
       /\ (7 <= length (split Char.LF text))%nat
       /\ (length (split Char.LF text) <= 7 + 3 * 2)%nat.
Proof.
  assert (Hurl : Forall (fun u => isFeedUrl Whatwg.newURL u = true)
                   [exampleUrl; projectScopedExample])
    by (repeat constructor; vm_compute; reflexivity).
  assert (Hpw : btoa exampleToken = Some examplePassword) by (vm_compute; reflexivity).
  split; [exact newURL_pathname_no_LF|]. split; [exact Hurl|]. split; [exact Hpw|].
  exact (configRewriter_line_count Whatwg.newURL [exampleUrl; projectScopedExample]
           exampleToken examplePassword exampleTarget newURL_pathname_no_LF Hurl Hpw).
Defined.

(** X2: in the text written, every processed feed has its user name,
    password and email lines, and every line that matches a sub-key of a
    processed feed is the line written for that sub-key: no line with an
    older value is left. *)
Theorem configRewriter_entries_present (parseURL : jsstring -> option URL)
    (url : list jsstring) (token password targetText feedUrlAsString : jsstring)
    (k : subKey) :
  (forall input feedUrl, parseURL input = Some feedUrl -> Char.LF ∉ url_pathname feedUrl) ->
  Forall (fun u => isFeedUrl parseURL u = true) url ->
  feedUrlAsString ∈ url ->
  btoa token = Some password ->
  exists text,
    configRewriter parseURL url password targetText = Some text
    /\ subKeyLine (keyPrefixOf parseURL feedUrlAsString) password k ∈ split Char.LF text
    /\ forall stored,
         stored ∈ split Char.LF text ->
         matchesKey stored (subKeyPrefix (keyPrefixOf parseURL feedUrlAsString) k) = true ->
         stored = subKeyLine (keyPrefixOf parseURL feedUrlAsString) password k.
Proof.
  intros Hparse Hurl Hin Hpw%btoa_no_LF.
  destruct (configRewriter_lines parseURL Hparse url password targetText Hurl Hpw)
    as (text & Hrun & Hlines).
  exists text. split; [done|]. rewrite Hlines.
  pose proof (rewritePrefixes_saturated _ password (split Char.LF targetText)
                (feedPrefixes_valid parseURL url Hurl)) as Hsat.
  rewrite List.Forall_forall in Hsat.
  destruct (Hsat (keyPrefixOf parseURL feedUrlAsString)) as [Hlines' Hkeys].
  { apply list_elem_of_In. by apply list_elem_of_fmap_2. }
  split.
  - destruct (proj1 (hasKey_iff _ _ _) (Hkeys k)) as (stored & Hstored & Hc).
    by rewrite <- (Hlines' stored k Hstored Hc).
  - intros stored Hstored Hm. apply Hlines'; [done|]. by apply classify_iff.
Qed.

Lemma configRewriter_entries_present_witness :
  (forall input feedUrl,
      Whatwg.newURL input = Some feedUrl -> Char.LF ∉ url_pathname feedUrl)
  /\ Forall (fun u => isFeedUrl Whatwg.newURL u = true) [exampleUrl; projectScopedExample]
  /\ projectScopedExample ∈ [exampleUrl; projectScopedExample]
  /\ btoa exampleToken = Some examplePassword
  /\ exists text,
       configRewriter Whatwg.newURL [exampleUrl; projectScopedExample]
         examplePassword exampleTarget = Some text
       /\ subKeyLine (keyPrefixOf Whatwg.newURL projectScopedExample) examplePassword Password
          ∈ split Char.LF text.
Proof.
  assert (Hurl : Forall (fun u => isFeedUrl Whatwg.newURL u = true)
                   [exampleUrl; projectScopedExample])
    by (repeat constructor; vm_compute; reflexivity).
  assert (Hin : projectScopedExample ∈ [exampleUrl; projectScopedExample])
    by (right; left).
  assert (Hpw : btoa exampleToken = Some examplePassword) by (vm_compute; reflexivity).
  split; [exact newURL_pathname_no_LF|]. split; [exact Hurl|]. split; [exact Hin|].
  split; [exact Hpw|].
  destruct (configRewriter_entries_present Whatwg.newURL [exampleUrl; projectScopedExample]
              exampleToken examplePassword exampleTarget projectScopedExample Password
              newURL_pathname_no_LF Hurl Hin Hpw)
    as (text & Hrun & Hpresent & _).
  exists text. split; [exact Hrun | exact Hpresent].
Defined.

(** X3: feed URLs given again after a list of accepted feed URLs change
    nothing: the text written for the longer list is the text written for
    the list. *)
Theorem configRewriter_repeated_urls (parseURL : jsstring -> option URL)
    (url again : list jsstring) (password targetText : jsstring) :
  Forall (fun u => isFeedUrl parseURL u = true) url ->
  Forall (fun u => u ∈ url) again ->
  configRewriter parseURL (url ++ again) password targetText
  = configRewriter parseURL url password targetText.
Proof.
  intros Hurl Hagain.
  assert (Hall : Forall (fun u => isFeedUrl parseURL u = true) (url ++ again)).
  { apply Forall_app. split; [done|].
    rewrite List.Forall_forall in Hurl, Hagain |- *.
    intros u Hu. apply Hurl, list_elem_of_In, Hagain, Hu. }
  rewrite !configRewriter_valid by done. do 2 f_equal.
  rewrite fmap_app, rewritePrefixes_app.
  apply rewritePrefixes_fixed.
  pose proof (rewritePrefixes_saturated _ password (split Char.LF targetText)
                (feedPrefixes_valid parseURL url Hurl)) as Hsat.
  rewrite List.Forall_forall in Hsat, Hagain.
  apply Forall_fmap, List.Forall_forall. intros u Hu. simpl.
  apply Hsat, list_elem_of_In, list_elem_of_fmap_2, Hagain, Hu.
Qed.

Lemma configRewriter_repeated_urls_witness :
  Forall (fun u => isFeedUrl Whatwg.newURL u = true) [exampleUrl; projectScopedExample]
  /\ Forall (fun u => u ∈ [exampleUrl; projectScopedExample]) [exampleUrl; exampleUrl]
  /\ configRewriter Whatwg.newURL
       ([exampleUrl; projectScopedExample] ++ [exampleUrl; exampleUrl])
       examplePassword exampleTarget
     = configRewriter Whatwg.newURL [exampleUrl; projectScopedExample]
         examplePassword exampleTarget.
Proof.
  assert (Hurl : Forall (fun u => isFeedUrl Whatwg.newURL u = true)
                   [exampleUrl; projectScopedExample])
    by (repeat constructor; vm_compute; reflexivity).
  assert (Hagain : Forall (fun u => u ∈ [exampleUrl; projectScopedExample])
                     [exampleUrl; exampleUrl])
    by (repeat constructor).
  split; [exact Hurl|]. split; [exact Hagain|].
  exact (configRewriter_repeated_urls Whatwg.newURL [exampleUrl; projectScopedExample]
           [exampleUrl; exampleUrl] examplePassword exampleTarget Hurl Hagain).
Defined.

(** X4: a target that already holds, for every feed URL, the three lines
    the tool writes and no other line matching their sub-keys is written
    back as it is. *)
Theorem configRewriter_up_to_date (parseURL : jsstring -> option URL)
    (url : list jsstring) (password targetText : jsstring) :
  Forall (fun u => isFeedUrl parseURL u = true) url ->
  (forall u k, u ∈ url ->
     subKeyLine (keyPrefixOf parseURL u) password k ∈ split Char.LF targetText
     /\ forall stored,
          stored ∈ split Char.LF targetText ->
          matchesKey stored (subKeyPrefix (keyPrefixOf parseURL u) k) = true ->
          stored = subKeyLine (keyPrefixOf parseURL u) password k) ->
  configRewriter parseURL url password targetText = Some targetText.
Proof.
  intros Hurl Hfile. rewrite configRewriter_valid by done. f_equal.
  rewrite rewritePrefixes_fixed; [apply join_split|].
  pose proof (feedPrefixes_valid parseURL url Hurl) as Hps.
  apply Forall_fmap, List.Forall_forall. intros u Hu%list_elem_of_In. simpl.
  assert (Hp : feedPrefix (keyPrefixOf parseURL u)).
  { rewrite List.Forall_forall in Hps.
    by apply Hps, list_elem_of_In, list_elem_of_fmap_2. }
  split.
  - intros stored k Hstored Hc%classify_iff. by apply (Hfile u k Hu).
  - intros k. apply hasKey_iff. exists (subKeyLine (keyPrefixOf parseURL u) password k).
    split; [by apply (Hfile u k Hu) | by apply classify_subKeyLine_self].
Qed.

Lemma configRewriter_up_to_date_witness :
  Forall (fun u => isFeedUrl Whatwg.newURL u = true) [exampleUrl]
  /\ configRewriter Whatwg.newURL [exampleUrl] examplePassword
       (join [Char.LF]
          [lit "# credentials";
           examplePrefix ++ lit ":email=not-used@example.com";
           examplePrefix ++ lit ":username=VssSessionToken";
           examplePrefix ++ lit ":_password=" ++ examplePassword])
     = Some (join [Char.LF]
               [lit "# credentials";
                examplePrefix ++ lit ":email=not-used@example.com";
                examplePrefix ++ lit ":username=VssSessionToken";
                examplePrefix ++ lit ":_password=" ++ examplePassword]).
Proof.
  assert (Hurl : Forall (fun u => isFeedUrl Whatwg.newURL u = true) [exampleUrl])
    by (repeat constructor; vm_compute; reflexivity).
  split; [exact Hurl|].
  apply (configRewriter_up_to_date Whatwg.newURL [exampleUrl] examplePassword _ Hurl).
  intros u k Hu. apply list_elem_of_singleton in Hu as ->. split.
  - destruct k; by_compute.
  - intros stored Hin Hm.
    assert (Hlines : split Char.LF
                       (join [Char.LF]
                          [lit "# credentials";
                           examplePrefix ++ lit ":email=not-used@example.com";
                           examplePrefix ++ lit ":username=VssSessionToken";
                           examplePrefix ++ lit ":_password=" ++ examplePassword])
                     = [lit "# credentials";
                        examplePrefix ++ lit ":email=not-used@example.com";
                        examplePrefix ++ lit ":username=VssSessionToken";
                        examplePrefix ++ lit ":_password=" ++ examplePassword])
      by (vm_compute; reflexivity).
    rewrite Hlines in Hin.
    repeat (apply elem_of_cons in Hin as [->|Hin]);
      [..|by apply elem_of_nil in Hin];
      destruct k; first [by vm_compute in Hm | vm_compute; reflexivity].
Defined.

(** ** Discovery of feed URLs in the project-level file *)

Lemma collectFeeds_cons (parseURL : jsstring -> option URL) (url : list jsstring)
    (key value : jsstring) (config : list (jsstring * jsstring)) :
  collectFeeds parseURL url ((key, value) :: config)
  = collectFeeds parseURL
      (if isRegistryEntry key && isFeedUrl parseURL value then url ++ [value] else url)
      config.
Proof.
  unfold collectFeeds, isRegistryEntry. cbn [foldl].
  destruct (strictEquals key (lit "registry")
            || startsWith key (lit "@") && endsWith key (lit ":registry"));
    [|reflexivity].
  by destruct (isFeedUrl parseURL value).
Qed.

Lemma collectFeeds_app (parseURL : jsstring -> option URL) (url : list jsstring)
    (config : list (jsstring * jsstring)) :
  collectFeeds parseURL url config = url ++ collectFeeds parseURL [] config.
Proof.
  revert url. induction config as [|[key value] config IH]; intros url.
  - unfold collectFeeds. cbn [foldl]. by rewrite app_nil_r.
  - rewrite !collectFeeds_cons. rewrite IH. symmetry. rewrite IH. symmetry.
    destruct (isRegistryEntry key && isFeedUrl parseURL value); [|done].
    by rewrite <- app_assoc.
Qed.

Lemma collectFeeds_filter (parseURL : jsstring -> option URL)
    (config : list (jsstring * jsstring)) :
  collectFeeds parseURL [] config
  = snd <$> List.filter (fun entry => isRegistryEntry entry.1 && isFeedUrl parseURL entry.2)
              config.
Proof.
  induction config as [|[key value] config IH]; [done|].
  rewrite collectFeeds_cons, collectFeeds_app, IH. cbn [List.filter fst snd].
  by destruct (isRegistryEntry key && isFeedUrl parseURL value).
Qed.

Lemma collectFeeds_valid (parseURL : jsstring -> option URL)
    (config : list (jsstring * jsstring)) :
  Forall (fun u => isFeedUrl parseURL u = true) (collectFeeds parseURL [] config).
Proof.
  rewrite collectFeeds_filter. apply Forall_fmap, List.Forall_forall.
  intros [key value] [_ Hk]%filter_In. simpl in *.
  by apply andb_true_iff in Hk as [_ ?].
Qed.

(** X5: the loop over the entries of the project-level file keeps, in the
    order of the file, the values of the entries whose key is [registry] or
    [@scope:registry] and whose value is a feed URL; every other entry is
    skipped, and every URL it returns is one the Matcher accepts. *)
Theorem collectFeeds_spec (parseURL : jsstring -> option URL)
    (config : list (jsstring * jsstring)) :
  collectFeeds parseURL [] config
  = snd <$> List.filter (fun entry => isRegistryEntry entry.1 && isFeedUrl parseURL entry.2)
              config
  /\ Forall (fun u => isFeedUrl parseURL u = true) (collectFeeds parseURL [] config).
Proof. split; [apply collectFeeds_filter | apply collectFeeds_valid]. Qed.

Example collectFeeds_example :
  collectFeeds Whatwg.newURL []
    [(lit "registry", exampleUrl);
     (lit "@scope:registry", lit "https://registry.npmjs.org/");
     (lit "always-auth", lit "true");
     (lit "@other:registry", projectScopedExample);
     (lit "feed", projectScopedExample)]
  = [exampleUrl; projectScopedExample].
Proof. vm_compute. reflexivity. Qed.

(** ** The prompt *)

Lemma validate_accepts (unicodeUpper : N -> N) (input : jsstring) :
  validate unicodeUpper input = inr tt <-> isPat unicodeUpper (trim input) = true.
Proof.
  unfold validate. destruct (trim input) as [|c rest] eqn:Htrim.
  - split; [done|]. by rewrite isPat_matchAt_0.
  - destruct (isPat unicodeUpper (c :: rest)); simpl; by split.
Qed.

Lemma validate_rejects (unicodeUpper : N -> N) (input : jsstring) :
  isPat unicodeUpper (trim input) = false ->
  validate unicodeUpper input = inl (promptMessage input).
Proof.
  unfold validate, promptMessage. intros H.
  destruct (trim input) as [|c rest]; [done|]. by rewrite H.
Qed.

Lemma promptWith_accepts (unicodeUpper : N -> N) (v : World)
    (rejected : list jsstring) (good : jsstring) (rest : list jsstring) :
  Forall (fun input => isPat unicodeUpper (trim input) = false) rejected ->
  isPat unicodeUpper (trim good) = true ->
  promptWith (validate unicodeUpper) (rejected ++ good :: rest) v
  = (inl good,
     mkWorld (files v) (directories v) rest
       (events v ++ ((fun input => PromptRejected (promptMessage input)) <$> rejected))).
Proof.
  intros Hrejected Hgood. revert v.
  induction Hrejected as [|input rejected Hinput Hrejected IH]; intros v.
  - cbn [app promptWith fmap list_fmap].
    rewrite (proj2 (validate_accepts unicodeUpper good) Hgood). by rewrite app_nil_r.
  - cbn [app promptWith]. rewrite validate_rejects by done.
    rewrite IH. cbn [emit files directories events fmap list_fmap].
    by rewrite <- app_assoc.
Qed.

(** X6: the prompt returns the first submitted input whose trimmed text is
    a PAT; every input before it is rejected with its message (one for an
    input that is empty once trimmed, another for any other shape), in
    order, and the inputs after it are left unread. *)
Theorem prompt_first_valid (unicodeUpper : N -> N) (w : World)
    (rejected : list jsstring) (good : jsstring) (rest : list jsstring) :
  answers w = rejected ++ good :: rest ->
  Forall (fun input => isPat unicodeUpper (trim input) = false) rejected ->
  isPat unicodeUpper (trim good) = true ->
  prompt (validate unicodeUpper) w
  = (inl good,
     mkWorld (files w) (directories w) rest
       (events w ++ ((fun input => PromptRejected (promptMessage input)) <$> rejected))).
Proof. unfold prompt. intros -> Hrejected Hgood. by apply promptWith_accepts. Qed.

Lemma prompt_first_valid_witness :
  answers (mkWorld (fun _ => None) (fun _ => false)
             [[]; lit "  "; lit "too-short"; 32 :: exampleToken ++ [10]; lit "unread"] [])
  = [[]; lit "  "; lit "too-short"] ++ (32 :: exampleToken ++ [10]) :: [lit "unread"]
  /\ Forall (fun input => isPat id (trim input) = false) [[]; lit "  "; lit "too-short"]
  /\ isPat id (trim (32 :: exampleToken ++ [10])) = true
  /\ prompt (validate id)
       (mkWorld (fun _ => None) (fun _ => false)
          [[]; lit "  "; lit "too-short"; 32 :: exampleToken ++ [10]; lit "unread"] [])
     = (inl (32 :: exampleToken ++ [10]),
        mkWorld (fun _ => None) (fun _ => false) [lit "unread"]
          [PromptRejected (lit "PAT cannot be empty.");
           PromptRejected (lit "PAT cannot be empty.");
           PromptRejected patMessage]).
Proof.
  assert (Ha : answers (mkWorld (fun _ => None) (fun _ => false)
                          [[]; lit "  "; lit "too-short"; 32 :: exampleToken ++ [10];
                           lit "unread"] [])
               = [[]; lit "  "; lit "too-short"] ++ (32 :: exampleToken ++ [10])
                 :: [lit "unread"]) by reflexivity.
  assert (Hr : Forall (fun input => isPat id (trim input) = false)
                 [[]; lit "  "; lit "too-short"])
    by (repeat constructor; vm_compute; reflexivity).
  assert (Hg : isPat id (trim (32 :: exampleToken ++ [10])) = true)
    by (vm_compute; reflexivity).
  split; [exact Ha|]. split; [exact Hr|]. split; [exact Hg|].
  exact (prompt_first_valid id _ _ _ _ Ha Hr Hg).
Defined.

(** ** Valid tokens and [btoa] *)

Lemma isPat_latin1 (unicodeUpper : N -> N) (pat : jsstring) :
  isPat unicodeUpper pat = true -> forallb (fun c => c <=? 255) pat = true.
Proof.
  rewrite isPat_matchAt_0. intros [_ Hall]%repeatClass_atEnd.
  rewrite forallb_forall in Hall |- *. intros c Hc. specialize (Hall c Hc).
  rewrite classMatch_alphanumeric in Hall.
  unfold Char.isAsciiAlphanumeric, Char.isAsciiDigit, Char.isAsciiAlpha,
    Char.isAsciiUpper, Char.isAsciiLower in Hall.
  apply N.leb_le.
  repeat match type of Hall with
         | context [?a <=? ?b] => destruct (N.leb_spec a b); try lia
         end; done.
Qed.

Lemma isPat_btoa (unicodeUpper : N -> N) (pat : jsstring) :
  isPat unicodeUpper pat = true -> btoa pat = Some (base64Encode pat).
Proof. intros H%isPat_latin1. unfold btoa. by rewrite H. Qed.

(** ** Reasoning on computations *)














Lemma hoare_orThrow {A} (P : World -> Prop) (r : option A)
    (Q : A -> World -> Prop) (R : outcome -> World -> Prop) :
  (forall v x, P v -> r = Some x -> Q x v) ->
  (forall v, P v -> r = None -> R Thrown v) ->
  hoare P (orThrow r) Q R.
Proof. intros Hsome Hnone v Hv. destruct r; [by apply Hsome | by apply Hnone]. Qed.



Lemma hoare_pre {A} (P P' : World -> Prop) (m : M A)
    (Q : A -> World -> Prop) (R : outcome -> World -> Prop) :
  hoare P m Q R -> (forall v, P' v -> P v) -> hoare P' m Q R.
Proof. intros Hm HP v Hv. by apply Hm, HP. Qed.


Lemma exec_feedUrl (parseURL : jsstring -> option URL) (u : jsstring) :
  isFeedUrl parseURL u = true ->
  match exec parseURL azureDevOpsOrganizationFeedPattern u with
  | Some r => Some r
  | None => exec parseURL azureDevOpsProjectFeedPattern u
  end <> None.
Proof.
  unfold isFeedUrl, test.
  destruct (exec parseURL azureDevOpsOrganizationFeedPattern u); [done|].
  by destruct (exec parseURL azureDevOpsProjectFeedPattern u).
Qed.

Section ResolveInputs.
Variable parseURL : jsstring -> option URL.
Variable unicodeUpper : N -> N.
Variables red green cyan : jsstring -> jsstring.
Variable untildify : jsstring -> jsstring.
Variable iniEntries : jsstring -> list (jsstring * jsstring).
Variable options : Options.
Variable w0 : World.

End ResolveInputs.


Section WriteCredentials.
Variable parseURL : jsstring -> option URL.
Variable unicodeUpper : N -> N.
Variables green bold dirname : jsstring -> jsstring.
Variable target : jsstring.
Variable url : list jsstring.
Variable pat : jsstring.
Variable w : World.
Hypothesis pat_valid : isPat unicodeUpper pat = true.
Hypothesis url_valid : Forall (fun u => isFeedUrl parseURL u = true) url.

End WriteCredentials.

Section RunContract.
Variable parseURL : jsstring -> option URL.
Variable unicodeUpper : N -> N.
Variables red green cyan bold : jsstring -> jsstring.
Variable untildify : jsstring -> jsstring.
Variable dirname : jsstring -> jsstring.
Variable iniEntries : jsstring -> list (jsstring * jsstring).
Variable options : Options.
Variable w : World.

End RunContract.






(** ** Whole runs *)







(** ** The paths of the first phase *)

Lemma run_first_phase_failure (parseURL : jsstring -> option URL) (unicodeUpper : N -> N)
    (red green cyan bold untildify dirname : jsstring -> jsstring)
    (iniEntries : jsstring -> list (jsstring * jsstring))
    (options : Options) (w : World) (o : outcome) (w' : World) :
  resolveInputs parseURL unicodeUpper red green cyan untildify iniEntries options w
  = (inr o, w') ->
  run parseURL unicodeUpper red green cyan bold untildify dirname iniEntries options w
  = (o, w').
Proof. intros H. unfold run. by rewrite main_phases, bind_unfold, H. Qed.

Lemma main_second_phase (parseURL : jsstring -> option URL) (unicodeUpper : N -> N)
    (red green cyan bold untildify dirname : jsstring -> jsstring)
    (iniEntries : jsstring -> list (jsstring * jsstring))
    (options : Options) (w : World) (url : list jsstring) (pat : jsstring) (v : World) :
  resolveInputs parseURL unicodeUpper red green cyan untildify iniEntries options w
  = (inl (url, pat), v) ->
  main parseURL unicodeUpper red green cyan bold untildify dirname iniEntries options w
  = writeCredentials parseURL green bold dirname (untildify (opt_target options)) url pat v.
Proof. intros H. by rewrite main_phases, bind_unfold, H. Qed.

Ltac first_phase :=
  unfold resolveInputs, mbind, M_bind, mret, M_ret, readFileSync, existsSync,
    consoleError, consoleLog, processExit, emit;
  cbn [opt_pat opt_url opt_npmrc opt_target files directories answers events].

(** X11: a token on the command line that is no PAT ends the run with
    status 1 after one line on standard error, before anything else: the
    URLs of the command line are not checked, no file is looked at. *)
Theorem run_invalid_pat (parseURL : jsstring -> option URL) (unicodeUpper : N -> N)
    (red green cyan bold untildify dirname : jsstring -> jsstring)
    (iniEntries : jsstring -> list (jsstring * jsstring))
    (pat : jsstring) (url : option (list jsstring)) (npmrc target : jsstring)
    (w : World) :
  pat <> [] ->
  isPat unicodeUpper pat = false ->
  run parseURL unicodeUpper red green cyan bold untildify dirname iniEntries
    (mkOptions (Some pat) url npmrc target) w
  = (Exited 1, emit (ConsoleError (red patMessage)) w).
Proof.
  intros Hne Hpat. apply run_first_phase_failure. first_phase.
  destruct pat as [|c pat']; [done|]. cbn [truthy default id]. by rewrite Hpat.
Qed.

Lemma run_invalid_pat_witness :
  lit "secret" <> []
  /\ isPat id (lit "secret") = false
  /\ run Whatwg.newURL id id id id id id (fun _ => lit "/home/me") (fun _ => [])
       (mkOptions (Some (lit "secret")) (Some [lit "foo"]) (lit "./.npmrc")
          (lit "/home/me/.npmrc")) emptyWorld
     = (Exited 1, emit (ConsoleError (id patMessage)) emptyWorld).
Proof.
  assert (Hne : lit "secret" <> []) by (vm_compute; discriminate).
  assert (Hpat : isPat id (lit "secret") = false) by (vm_compute; reflexivity).
  split; [exact Hne|]. split; [exact Hpat|].
  exact (run_invalid_pat Whatwg.newURL id id id id id id (fun _ => lit "/home/me")
           (fun _ => []) (lit "secret") (Some [lit "foo"]) (lit "./.npmrc")
           (lit "/home/me/.npmrc") emptyWorld Hne Hpat).
Defined.

Lemma pat_check {A} (unicodeUpper : N -> N) (pat : option jsstring) (x y : A) :
  truthy pat = false \/ isPat unicodeUpper (default [] pat) = true ->
  (if truthy pat then if negb (isPat unicodeUpper (default [] pat)) then x else y else y)
  = y.
Proof. intros [-> | ->]; [done|]. by destruct (truthy pat). Qed.

Lemma url_check (parseURL : jsstring -> option URL) (url : list jsstring)
    (exit : jsstring -> M unit) (w : World) :
  Forall (fun u => isFeedUrl parseURL u = true) url ->
  forEach url (fun value => if negb (isFeedUrl parseURL value)
                            then exit value
                            else fun w0 => (inl tt, w0)) w
  = (inl tt, w).
Proof.
  intros Hurl. apply forEach_pass.
  eapply List.Forall_impl; [|exact Hurl]. intros u Hu. cbv beta. by rewrite Hu.
Qed.

(** X12: with no URL on the command line and nothing at the path of the
    project-level file, the run looks for the file, says on standard error
    that it does not exist, and ends with status 1; the target is not
    looked at. *)
Theorem run_missing_npmrc (parseURL : jsstring -> option URL) (unicodeUpper : N -> N)
    (red green cyan bold untildify dirname : jsstring -> jsstring)
    (iniEntries : jsstring -> list (jsstring * jsstring))
    (pat : option jsstring) (url : option (list jsstring)) (npmrc target : jsstring)
    (w : World) :
  truthy pat = false \/ isPat unicodeUpper (default [] pat) = true ->
  default [] url = [] ->
  files w (untildify npmrc) = None ->
  directories w (untildify npmrc) = false ->
  run parseURL unicodeUpper red green cyan bold untildify dirname iniEntries
    (mkOptions pat url npmrc target) w
  = (Exited 1,
     emit (ConsoleError (red (notFoundMessage (untildify npmrc))))
       (emit (ExistsSync (untildify npmrc)) w)).
Proof.
  intros Hpat Hurl Hfile Hdir. apply run_first_phase_failure. first_phase.
  rewrite Hurl, (pat_check _ _ _ _ Hpat).
  cbn [forEach mret M_ret length Nat.eqb files directories answers events].
  by rewrite Hfile, Hdir.
Qed.

Lemma run_missing_npmrc_witness :
  (truthy None = false \/ isPat id (default [] None) = true)
  /\ default [] (@None (list jsstring)) = []
  /\ files emptyWorld (id (lit "./.npmrc")) = None
  /\ directories emptyWorld (id (lit "./.npmrc")) = false
  /\ run Whatwg.newURL id id id id id id (fun _ => lit "/home/me") (fun _ => [])
       (mkOptions None None (lit "./.npmrc") (lit "/home/me/.npmrc")) emptyWorld
     = (Exited 1,
        emit (ConsoleError (id (notFoundMessage (id (lit "./.npmrc")))))
          (emit (ExistsSync (id (lit "./.npmrc"))) emptyWorld)).
Proof.
  assert (Hpat : truthy None = false \/ isPat id (default [] None) = true)
    by (left; reflexivity).
  assert (Hurl : default [] (@None (list jsstring)) = []) by reflexivity.
  assert (Hfile : files emptyWorld (id (lit "./.npmrc")) = None) by reflexivity.
  assert (Hdir : directories emptyWorld (id (lit "./.npmrc")) = false) by reflexivity.
  split; [exact Hpat|]. split; [exact Hurl|]. split; [exact Hfile|]. split; [exact Hdir|].
  exact (run_missing_npmrc Whatwg.newURL id id id id id id (fun _ => lit "/home/me")
           (fun _ => []) None None (lit "./.npmrc") (lit "/home/me/.npmrc") emptyWorld
           Hpat Hurl Hfile Hdir).
Defined.

(** X13: with no URL on the command line and a project-level file in which
    no entry is both a registry entry and a feed URL, the run reads the
    file, says on standard error that it holds no feed, and ends with
    status 1. *)
Theorem run_no_feeds (parseURL : jsstring -> option URL) (unicodeUpper : N -> N)
    (red green cyan bold untildify dirname : jsstring -> jsstring)
    (iniEntries : jsstring -> list (jsstring * jsstring))
    (pat : option jsstring) (url : option (list jsstring)) (npmrc target : jsstring)
    (w : World) (text : jsstring) :
  truthy pat = false \/ isPat unicodeUpper (default [] pat) = true ->
  default [] url = [] ->
  files w (untildify npmrc) = Some text ->
  Forall (fun entry => isRegistryEntry entry.1 && isFeedUrl parseURL entry.2 = false)
    (iniEntries text) ->
  run parseURL unicodeUpper red green cyan bold untildify dirname iniEntries
    (mkOptions pat url npmrc target) w
  = (Exited 1,
     emit (ConsoleError (red (noFeedsMessage (untildify npmrc))))
       (emit (ReadFileSync (untildify npmrc)) (emit (ExistsSync (untildify npmrc)) w))).
Proof.
  intros Hpat Hurl Hfile Hentries. apply run_first_phase_failure. first_phase.
  rewrite Hurl, (pat_check _ _ _ _ Hpat).
  cbn [forEach mret M_ret length Nat.eqb files directories answers events].
  rewrite Hfile. cbn [negb files directories answers events].
  rewrite Hfile. rewrite collectFeeds_filter.
  assert (Hnone : List.filter
                    (fun entry => isRegistryEntry entry.1 && isFeedUrl parseURL entry.2)
                    (iniEntries text) = []).
  { induction Hentries as [|entry entries Hentry _ IH]; [done|].
    cbn [List.filter]. by rewrite Hentry. }
  rewrite Hnone. reflexivity.
Qed.

Lemma run_no_feeds_witness :
  (truthy (Some exampleToken) = false
   \/ isPat id (default [] (Some exampleToken)) = true)
  /\ default [] (@None (list jsstring)) = []
  /\ files (projectWorld (lit "registry=https://registry.npmjs.org/") [])
       (id (lit "./.npmrc"))
     = Some (lit "registry=https://registry.npmjs.org/")
  /\ Forall (fun entry => isRegistryEntry entry.1 && isFeedUrl Whatwg.newURL entry.2 = false)
       ((fun _ => publicEntries) (lit "registry=https://registry.npmjs.org/"))
  /\ run Whatwg.newURL id id id id id id (fun _ => lit "/home/me") (fun _ => publicEntries)
       (mkOptions (Some exampleToken) None (lit "./.npmrc") (lit "/home/me/.npmrc"))
       (projectWorld (lit "registry=https://registry.npmjs.org/") [])
     = (Exited 1,
        emit (ConsoleError (id (noFeedsMessage (id (lit "./.npmrc")))))
          (emit (ReadFileSync (id (lit "./.npmrc")))
             (emit (ExistsSync (id (lit "./.npmrc")))
                (projectWorld (lit "registry=https://registry.npmjs.org/") [])))).
Proof.
  assert (Hpat : truthy (Some exampleToken) = false
                 \/ isPat id (default [] (Some exampleToken)) = true)
    by (right; vm_compute; reflexivity).
  assert (Hurl : default [] (@None (list jsstring)) = []) by reflexivity.
  assert (Hfile : files (projectWorld (lit "registry=https://registry.npmjs.org/") [])
                    (id (lit "./.npmrc"))
                  = Some (lit "registry=https://registry.npmjs.org/"))
    by (vm_compute; reflexivity).
  assert (Hentries : Forall (fun entry => isRegistryEntry entry.1
                                          && isFeedUrl Whatwg.newURL entry.2 = false)
                       ((fun _ => publicEntries)
                          (lit "registry=https://registry.npmjs.org/")))
    by (repeat constructor; vm_compute; reflexivity).
  split; [exact Hpat|]. split; [exact Hurl|]. split; [exact Hfile|].
  split; [exact Hentries|].
  exact (run_no_feeds Whatwg.newURL id id id id id id (fun _ => lit "/home/me")
           (fun _ => publicEntries) (Some exampleToken) None (lit "./.npmrc")
           (lit "/home/me/.npmrc")
           (projectWorld (lit "registry=https://registry.npmjs.org/") [])
           (lit "registry=https://registry.npmjs.org/") Hpat Hurl Hfile Hentries).
Defined.

Lemma isPat_truthy (unicodeUpper : N -> N) (pat : jsstring) :
  isPat unicodeUpper pat = true -> truthy (Some pat) = true.
Proof. destruct pat; [by rewrite isPat_matchAt_0|done]. Qed.

(** X14: with no URL on the command line, a token there that is a PAT and
    a project-level file that holds at least one registry entry that is a
    feed URL, the run looks for the file, reads it, and goes on to write
    the credentials of the feeds found in it, in the order of the file,
    without asking anything. *)
Theorem main_discovers_feeds (parseURL : jsstring -> option URL) (unicodeUpper : N -> N)
    (red green cyan bold untildify dirname : jsstring -> jsstring)
    (iniEntries : jsstring -> list (jsstring * jsstring))
    (pat : jsstring) (url : option (list jsstring)) (npmrc target : jsstring)
    (w : World) (text : jsstring) :
  isPat unicodeUpper pat = true ->
  default [] url = [] ->
  files w (untildify npmrc) = Some text ->
  collectFeeds parseURL [] (iniEntries text) <> [] ->
  main parseURL unicodeUpper red green cyan bold untildify dirname iniEntries
    (mkOptions (Some pat) url npmrc target) w
  = writeCredentials parseURL green bold dirname (untildify target)
      (collectFeeds parseURL [] (iniEntries text)) pat
      (emit (ReadFileSync (untildify npmrc)) (emit (ExistsSync (untildify npmrc)) w)).
Proof.
  intros Hpat Hurl Hfile Hfound.
  apply (main_second_phase parseURL unicodeUpper red green cyan bold untildify dirname
           iniEntries (mkOptions (Some pat) url npmrc target)).
  first_phase.
  rewrite Hurl, (pat_check unicodeUpper (Some pat) _ _ (or_intror Hpat)),
    (isPat_truthy _ _ Hpat).
  cbn [forEach mret M_ret length Nat.eqb files directories answers events].
  rewrite Hfile. cbn [negb files directories answers events].
  rewrite Hfile.
  destruct (collectFeeds parseURL [] (iniEntries text)) as [|u found]; [done|].
  reflexivity.
Qed.

Lemma main_discovers_feeds_witness :
  isPat id exampleToken = true
  /\ default [] (@None (list jsstring)) = []
  /\ files (projectWorld exampleUrl []) (id (lit "./.npmrc")) = Some exampleUrl
  /\ collectFeeds Whatwg.newURL [] ((fun _ => feedEntries) exampleUrl) <> []
  /\ main Whatwg.newURL id id id id id id (fun _ => lit "/home/me") (fun _ => feedEntries)
       (mkOptions (Some exampleToken) None (lit "./.npmrc") (lit "/home/me/.npmrc"))
       (projectWorld exampleUrl [])
     = writeCredentials Whatwg.newURL id id (fun _ => lit "/home/me")
         (id (lit "/home/me/.npmrc"))
         (collectFeeds Whatwg.newURL [] ((fun _ => feedEntries) exampleUrl)) exampleToken
         (emit (ReadFileSync (id (lit "./.npmrc")))
            (emit (ExistsSync (id (lit "./.npmrc"))) (projectWorld exampleUrl []))).
Proof.
  assert (Hpat : isPat id exampleToken = true) by (vm_compute; reflexivity).
  assert (Hurl : default [] (@None (list jsstring)) = []) by reflexivity.
  assert (Hfile : files (projectWorld exampleUrl []) (id (lit "./.npmrc"))
                  = Some exampleUrl) by (vm_compute; reflexivity).
  assert (Hfound : collectFeeds Whatwg.newURL [] ((fun _ => feedEntries) exampleUrl) <> [])
    by (vm_compute; discriminate).
  split; [exact Hpat|]. split; [exact Hurl|]. split; [exact Hfile|].
  split; [exact Hfound|].
  exact (main_discovers_feeds Whatwg.newURL id id id id id id (fun _ => lit "/home/me")
           (fun _ => feedEntries) exampleToken None (lit "./.npmrc")
           (lit "/home/me/.npmrc") (projectWorld exampleUrl []) exampleUrl
           Hpat Hurl Hfile Hfound).
Defined.

Lemma exec_first_organization (parseURL : jsstring -> option URL) (u : jsstring) :
  isFeedUrl parseURL u = true ->
  exists r feedUrl organization rest,
    match exec parseURL azureDevOpsOrganizationFeedPattern u with
    | Some r => Some r
    | None => exec parseURL azureDevOpsProjectFeedPattern u
    end = Some r
    /\ parseURL u = Some feedUrl
    /\ isSegment organization
    /\ url_pathname feedUrl = lit "/" ++ organization ++ lit "/" ++ rest
    /\ group (lit "organization") (result_pathname r) = Some organization.
Proof.
  intros Hu%exec_feedUrl.
  destruct (exec parseURL azureDevOpsOrganizationFeedPattern u) as [r|] eqn:Ho.
  - apply exec_organization in Ho as (feedUrl & o & f & Hurl & _ & Hso & _ & Hpath & Hg).
    exists r, feedUrl, o, (lit "_packaging/" ++ f ++ lit "/npm/registry/").
    by rewrite Hpath.
  - destruct (exec parseURL azureDevOpsProjectFeedPattern u) as [r|] eqn:Hp; [|done].
    apply exec_project in Hp as (feedUrl & o & p & f & Hurl & _ & Hso & _ & _ & Hpath & Hg).
    exists r, feedUrl, o, (p ++ lit "/_packaging/" ++ f ++ lit "/npm/registry/").
    by rewrite Hpath.
Qed.

(** X15: with feed URLs on the command line, all accepted by the Matcher,
    and no token there, the run prints the address of the token page of the
    organization of the first URL (the first segment of the path of that
    URL as the parser normalises it) and the permissions to give, and asks
    for the token; it rejects each submitted input that is no PAT once
    trimmed, and goes on to write the credentials with the first one that
    is: with its trimmed text, not the text as typed. *)
Theorem main_prompts_for_pat (parseURL : jsstring -> option URL) (unicodeUpper : N -> N)
    (red green cyan bold untildify dirname : jsstring -> jsstring)
    (iniEntries : jsstring -> list (jsstring * jsstring))
    (pat : option jsstring) (first : jsstring) (others : list jsstring)
    (npmrc target : jsstring) (w : World)
    (rejected : list jsstring) (good : jsstring) (rest : list jsstring) :
  truthy pat = false ->
  Forall (fun u => isFeedUrl parseURL u = true) (first :: others) ->
  answers w = rejected ++ good :: rest ->
  Forall (fun input => isPat unicodeUpper (trim input) = false) rejected ->
  isPat unicodeUpper (trim good) = true ->
  exists feedUrl organization path,
    parseURL first = Some feedUrl
    /\ isSegment organization
    /\ url_pathname feedUrl = lit "/" ++ organization ++ lit "/" ++ path
    /\ main parseURL unicodeUpper red green cyan bold untildify dirname iniEntries
         (mkOptions pat (Some (first :: others)) npmrc target) w
       = writeCredentials parseURL green bold dirname (untildify target)
           (first :: others) (trim good)
           (mkWorld (files w) (directories w) rest
              (events w
               ++ [ConsoleLog
                     (lit "Please generate a PAT at: "
                      ++ cyan (lit "https://dev.azure.com/" ++ organization
                               ++ lit "/_usersSettings/tokens"));
                   ConsoleLog (lit "Permissions required: "
                               ++ green (lit "Packaging (Read & Write)"))]
               ++ ((fun input => PromptRejected (promptMessage input)) <$> rejected))).
Proof.
  intros Hpat Hurl Hanswers Hrejected Hgood.
  pose proof Hurl as [Hfirst _]%Forall_cons_iff.
  apply exec_first_organization in Hfirst
    as (r & feedUrl & organization & path & Hexec & Hparse & Hsegment & Hpath & Hgroup).
  exists feedUrl, organization, path.
  split; [done|]. split; [done|]. split; [done|].
  apply (main_second_phase parseURL unicodeUpper red green cyan bold untildify dirname
           iniEntries (mkOptions pat (Some (first :: others)) npmrc target)).
  first_phase. rewrite Hpat.
  cbn [default id length Nat.eqb negb list.head].
  rewrite (url_check parseURL (first :: others) _ w Hurl), Hexec, Hgroup.
  cbn [default id]. unfold prompt. cbn [answers]. rewrite Hanswers.
  rewrite (promptWith_accepts unicodeUpper _ rejected good rest Hrejected Hgood).
  cbn [files directories events]. by rewrite <- !app_assoc.
Qed.

Lemma main_prompts_for_pat_witness :
  truthy None = false
  /\ Forall (fun u => isFeedUrl Whatwg.newURL u = true) [projectScopedExample]
  /\ answers (projectWorld [] [lit "  "; 32 :: exampleToken ++ [10]; lit "unread"])
     = [lit "  "] ++ (32 :: exampleToken ++ [10]) :: [lit "unread"]
  /\ Forall (fun input => isPat id (trim input) = false) [lit "  "]
  /\ isPat id (trim (32 :: exampleToken ++ [10])) = true
  /\ exists feedUrl organization path,
       Whatwg.newURL projectScopedExample = Some feedUrl
       /\ isSegment organization
       /\ url_pathname feedUrl = lit "/" ++ organization ++ lit "/" ++ path
       /\ main Whatwg.newURL id id id id id id (fun _ => lit "/home/me") (fun _ => [])
            (mkOptions None (Some [projectScopedExample]) (lit "./.npmrc")
               (lit "/home/me/.npmrc"))
            (projectWorld [] [lit "  "; 32 :: exampleToken ++ [10]; lit "unread"])
          = writeCredentials Whatwg.newURL id id (fun _ => lit "/home/me")
              (id (lit "/home/me/.npmrc")) [projectScopedExample]
              (trim (32 :: exampleToken ++ [10]))
              (mkWorld
                 (files (projectWorld [] [lit "  "; 32 :: exampleToken ++ [10];
                                          lit "unread"]))
                 (directories (projectWorld [] [lit "  "; 32 :: exampleToken ++ [10];
                                                lit "unread"]))
                 [lit "unread"]
                 (events (projectWorld [] [lit "  "; 32 :: exampleToken ++ [10];
                                           lit "unread"])
                  ++ [ConsoleLog
                        (lit "Please generate a PAT at: "
                         ++ id (lit "https://dev.azure.com/" ++ organization
                                ++ lit "/_usersSettings/tokens"));
                      ConsoleLog (lit "Permissions required: "
                                  ++ id (lit "Packaging (Read & Write)"))]
                  ++ ((fun input => PromptRejected (promptMessage input))
                        <$> [lit "  "]))).
Proof.
  assert (Hpat : truthy None = false) by reflexivity.
  assert (Hurl : Forall (fun u => isFeedUrl Whatwg.newURL u = true) [projectScopedExample])
    by (repeat constructor; vm_compute; reflexivity).
  assert (Hanswers : answers (projectWorld [] [lit "  "; 32 :: exampleToken ++ [10];
                                               lit "unread"])
                     = [lit "  "] ++ (32 :: exampleToken ++ [10]) :: [lit "unread"])
    by reflexivity.
  assert (Hrejected : Forall (fun input => isPat id (trim input) = false) [lit "  "])
    by (repeat constructor; vm_compute; reflexivity).
  assert (Hgood : isPat id (trim (32 :: exampleToken ++ [10])) = true)
    by (vm_compute; reflexivity).
  split; [exact Hpat|]. split; [exact Hurl|]. split; [exact Hanswers|].
  split; [exact Hrejected|]. split; [exact Hgood|].
  exact (main_prompts_for_pat Whatwg.newURL id id id id id id (fun _ => lit "/home/me")
           (fun _ => []) None projectScopedExample [] (lit "./.npmrc")
           (lit "/home/me/.npmrc")
           (projectWorld [] [lit "  "; 32 :: exampleToken ++ [10]; lit "unread"])
           [lit "  "] (32 :: exampleToken ++ [10]) [lit "unread"]
           Hpat Hurl Hanswers Hrejected Hgood).
Defined.

(** The run of this example: the page of [myorg] is shown, the blank input
    is rejected, and the password written is the base64 of the token
    without the space and the newline typed around it. *)
Example main_prompts_example :
  (run Whatwg.newURL id id id id id id (fun _ => lit "/home/me") (fun _ => [])
     (mkOptions None (Some [projectScopedExample]) (lit "./.npmrc")
        (lit "/home/me/.npmrc"))
     (projectWorld [] [lit "  "; 32 :: exampleToken ++ [10]; lit "unread"])).1
  = Exited 0
  /\ take 3
       (events
          (run Whatwg.newURL id id id id id id (fun _ => lit "/home/me") (fun _ => [])
             (mkOptions None (Some [projectScopedExample]) (lit "./.npmrc")
                (lit "/home/me/.npmrc"))
             (projectWorld [] [lit "  "; 32 :: exampleToken ++ [10]; lit "unread"])).2)
     = [ConsoleLog (lit "Please generate a PAT at: https://dev.azure.com/myorg/_usersSettings/tokens");
        ConsoleLog (lit "Permissions required: Packaging (Read & Write)");
        PromptRejected (lit "PAT cannot be empty.")]
  /\ files
       (run Whatwg.newURL id id id id id id (fun _ => lit "/home/me") (fun _ => [])
          (mkOptions None (Some [projectScopedExample]) (lit "./.npmrc")
             (lit "/home/me/.npmrc"))
          (projectWorld [] [lit "  "; 32 :: exampleToken ++ [10]; lit "unread"])).2
       (lit "/home/me/.npmrc")
     = Some (join [Char.LF]
               [[];
                lit "//pkgs.dev.azure.com/myorg/myproj/_packaging/myfeed/npm/registry/:username=VssSessionToken";
                lit "//pkgs.dev.azure.com/myorg/myproj/_packaging/myfeed/npm/registry/:_password="
                ++ examplePassword;
                lit "//pkgs.dev.azure.com/myorg/myproj/_packaging/myfeed/npm/registry/:email=not-used@example.com"]).
Proof. repeat split; vm_compute; reflexivity. Qed.

Lemma resolveInputs_given (parseURL : jsstring -> option URL) (unicodeUpper : N -> N)
    (red green cyan untildify : jsstring -> jsstring)
    (iniEntries : jsstring -> list (jsstring * jsstring))
    (pat : jsstring) (url : list jsstring) (npmrc target : jsstring) (w : World) :
  isPat unicodeUpper pat = true ->
  url <> [] ->
  Forall (fun u => isFeedUrl parseURL u = true) url ->
  resolveInputs parseURL unicodeUpper red green cyan untildify iniEntries
    (mkOptions (Some pat) (Some url) npmrc target) w
  = (inl (url, pat), w).
Proof.
  intros Hpat Hne Hurl. first_phase.
  rewrite (pat_check unicodeUpper (Some pat) _ _ (or_intror Hpat)),
    (isPat_truthy _ _ Hpat).
  cbn [default id negb]. rewrite (url_check parseURL url _ w Hurl).
  by destruct url.
Qed.

(** X16: with a token that is a PAT and feed URLs the Matcher accepts,
    both on the command line, the run goes straight to the second phase:
    nothing is printed, asked or looked at before the target is. *)
Theorem main_with_pat_and_url (parseURL : jsstring -> option URL) (unicodeUpper : N -> N)
    (red green cyan bold untildify dirname : jsstring -> jsstring)
    (iniEntries : jsstring -> list (jsstring * jsstring))
    (pat : jsstring) (url : list jsstring) (npmrc target : jsstring) (w : World) :
  isPat unicodeUpper pat = true ->
  url <> [] ->
  Forall (fun u => isFeedUrl parseURL u = true) url ->
  main parseURL unicodeUpper red green cyan bold untildify dirname iniEntries
    (mkOptions (Some pat) (Some url) npmrc target) w
  = writeCredentials parseURL green bold dirname (untildify target) url pat w.
Proof.
  intros Hpat Hne Hurl.
  apply (main_second_phase parseURL unicodeUpper red green cyan bold untildify dirname
           iniEntries (mkOptions (Some pat) (Some url) npmrc target)).
  by apply resolveInputs_given.
Qed.

Lemma main_with_pat_and_url_witness :
  isPat id exampleToken = true
  /\ [exampleUrl; projectScopedExample] <> []
  /\ Forall (fun u => isFeedUrl Whatwg.newURL u = true) [exampleUrl; projectScopedExample]
  /\ main Whatwg.newURL id id id id id id (fun _ => lit "/home/me") (fun _ => [])
       (mkOptions (Some exampleToken) (Some [exampleUrl; projectScopedExample])
          (lit "./.npmrc") (lit "/home/me/.npmrc")) emptyWorld
     = writeCredentials Whatwg.newURL id id (fun _ => lit "/home/me")
         (id (lit "/home/me/.npmrc")) [exampleUrl; projectScopedExample] exampleToken
         emptyWorld.
Proof.
  assert (Hpat : isPat id exampleToken = true) by (vm_compute; reflexivity).
  assert (Hne : [exampleUrl; projectScopedExample] <> []) by discriminate.
  assert (Hurl : Forall (fun u => isFeedUrl Whatwg.newURL u = true)
                   [exampleUrl; projectScopedExample])
    by (repeat constructor; vm_compute; reflexivity).
  split; [exact Hpat|]. split; [exact Hne|]. split; [exact Hurl|].
  exact (main_with_pat_and_url Whatwg.newURL id id id id id id (fun _ => lit "/home/me")
           (fun _ => []) exampleToken [exampleUrl; projectScopedExample] (lit "./.npmrc")
           (lit "/home/me/.npmrc") emptyWorld Hpat Hne Hurl).
Defined.

(** X17: a target path that is a directory is found to exist, so nothing
    is created; reading it throws, and the run ends on that exception with
    the directory untouched and no credentials written anywhere. *)
Theorem run_target_is_directory (parseURL : jsstring -> option URL)
    (unicodeUpper : N -> N)
    (red green cyan bold untildify dirname : jsstring -> jsstring)
    (iniEntries : jsstring -> list (jsstring * jsstring))
    (pat : jsstring) (url : list jsstring) (npmrc target : jsstring) (w : World) :
  isPat unicodeUpper pat = true ->
  url <> [] ->
  Forall (fun u => isFeedUrl parseURL u = true) url ->
  files w (untildify target) = None ->
  directories w (untildify target) = true ->
  run parseURL unicodeUpper red green cyan bold untildify dirname iniEntries
    (mkOptions (Some pat) (Some url) npmrc target) w
  = (Thrown,
     emit (ReadFileSync (untildify target)) (emit (ExistsSync (untildify target)) w)).
Proof.
  intros Hpat Hne Hurl Hfile Hdir. unfold run.
  rewrite main_phases, bind_unfold, resolveInputs_given by done.
  cbn [fst snd opt_target]. unfold writeCredentials.
  rewrite (isPat_btoa _ _ Hpat).
  unfold mbind, M_bind, mret, M_ret, readFileSync, existsSync, writeFileSync,
    mkdirSync, consoleLog, orThrow, emit.
  cbn [files directories answers events negb fst snd].
  rewrite Hfile, Hdir. cbn [files directories answers events negb].
  by rewrite Hfile.
Qed.

Lemma run_target_is_directory_witness :
  isPat id exampleToken = true
  /\ [exampleUrl] <> []
  /\ Forall (fun u => isFeedUrl Whatwg.newURL u = true) [exampleUrl]
  /\ files (mkWorld (fun _ => None) (fun path => strictEquals path (lit "/home/me")) [] [])
       (id (lit "/home/me")) = None
  /\ directories
       (mkWorld (fun _ => None) (fun path => strictEquals path (lit "/home/me")) [] [])
       (id (lit "/home/me")) = true
  /\ run Whatwg.newURL id id id id id id (fun _ => lit "/home") (fun _ => [])
       (mkOptions (Some exampleToken) (Some [exampleUrl]) (lit "./.npmrc")
          (lit "/home/me"))
       (mkWorld (fun _ => None) (fun path => strictEquals path (lit "/home/me")) [] [])
     = (Thrown,
        emit (ReadFileSync (id (lit "/home/me")))
          (emit (ExistsSync (id (lit "/home/me")))
             (mkWorld (fun _ => None) (fun path => strictEquals path (lit "/home/me"))
                [] []))).
Proof.
  assert (Hpat : isPat id exampleToken = true) by (vm_compute; reflexivity).
  assert (Hne : [exampleUrl] <> []) by discriminate.
  assert (Hurl : Forall (fun u => isFeedUrl Whatwg.newURL u = true) [exampleUrl])
    by (repeat constructor; vm_compute; reflexivity).
  assert (Hfile : files (mkWorld (fun _ => None)
                           (fun path => strictEquals path (lit "/home/me")) [] [])
                    (id (lit "/home/me")) = None) by reflexivity.
  assert (Hdir : directories (mkWorld (fun _ => None)
                                (fun path => strictEquals path (lit "/home/me")) [] [])
                   (id (lit "/home/me")) = true) by (vm_compute; reflexivity).
  split; [exact Hpat|]. split; [exact Hne|]. split; [exact Hurl|].
  split; [exact Hfile|]. split; [exact Hdir|].
  exact (run_target_is_directory Whatwg.newURL id id id id id id (fun _ => lit "/home")
           (fun _ => []) exampleToken [exampleUrl] (lit "./.npmrc") (lit "/home/me")
           (mkWorld (fun _ => None) (fun path => strictEquals path (lit "/home/me")) [] [])
           Hpat Hne Hurl Hfile Hdir).
Defined.
